(** * secretlyAwesome: a functional facade over the Secret Manager client

    Shallow embedding of [index.ts] (the TypeScript source) and of
    [output/index.js] (the bundle compiled from an earlier revision of it),
    followed by the properties the specification states about them.

    Layout:
    - [Js]       the fragment of the ECMAScript / Node.js runtime the code
                 relies on: strings of UTF-16 code units, numbers (IEEE 754
                 binary64), [undefined] and [null], [?.], [||], [??],
                 [Number.prototype.toString],
                 [Buffer.from(s, 'utf8')] and [Buffer.prototype.toString];
    - [protos], [Gax]   the objects exchanged with
                 [SecretManagerServiceClient] and the calls made on it;
    - [Async]    the bodies of the [async] functions, and [run], which
                 executes one against an implementation of the client;
    - [TS], [Output]    the two source files, function by function;
    - [Service]  a reference model of the external service;
    - the vocabulary of the specification, then the properties. *)

From Stdlib Require Import ZArith List Bool Lia String Ascii.
From Stdlib Require Import DecimalString DecimalZ QArith Qround Qabs.
Import ListNotations.

Local Open Scope Z_scope.

(* ================================================================== *)
(** ** The runtime fragment *)

Module Js.

(** A JavaScript string is a sequence of 16-bit code units. *)
Definition jsstring := list Z.

(** A [Buffer] is a sequence of octets. *)
Definition Buffer := list Z.

(** A [number] is an IEEE 754 binary64 value: NaN, an infinity, or a
    finite value [m * 2^e] with its sign ([m = 0] is a zero, so [-0] is a
    number of its own).  A finite value may be written with more than one
    pair [(m, e)]; every function below depends on the value alone. *)
Inductive float64 : Type :=
| FNaN
| FInfinity (negative : bool)
| FFinite (negative : bool) (m e : Z).

Definition is_float64 (x : float64) : bool :=
  match x with
  | FFinite _ m e => (0 <=? m) && (m <? 2 ^ 53) && (-1074 <=? e) && (e <=? 971)
  | FNaN | FInfinity _ => true
  end.

Record number : Type :=
  { float : float64;
    float_ok : is_float64 float = true }.

Definition NaN : number := {| float := FNaN; float_ok := eq_refl |}.

(** The number a binary64 value is; [NaN] for a triple that is none. *)
Definition check (x : float64) : number :=
  match bool_dec (is_float64 x) true with
  | left ok => {| float := x; float_ok := ok |}
  | right _ => NaN
  end.

(** The mathematical value of a positive finite number. *)
Definition magnitude (m e : Z) : Q := inject_Z m * 2 ^ e.

(** The integral part of the binary logarithm of a positive rational. *)
Definition floor_log2 (q : Q) : Z :=
  let l := Z.log2 (Qnum q) - Z.log2 (Zpos (Qden q)) in
  if Qle_bool (2 ^ l) q then l else l - 1.

(** Rounding to the nearest integer, ties to the even one. *)
Definition round_half_even (q : Q) : Z :=
  let f := Qfloor q in
  match (q - inject_Z f ?= 1 # 2)%Q with
  | Lt => f
  | Gt => f + 1
  | Eq => if Z.even f then f else f + 1
  end.

(** The binary64 value nearest to a positive rational, ties to the even
    significand; an infinity from [2^1024 - 2^970] on. *)
Definition nearest_positive (negative : bool) (q : Q) : float64 :=
  let e := Z.max (floor_log2 q - 52) (-1074) in
  let m := round_half_even (q / 2 ^ e) in
  let (m, e) := if m =? 2 ^ 53 then (2 ^ 52, e + 1) else (m, e) in
  if 971 <? e then FInfinity negative else FFinite negative m e.

(** The number a numeric literal of value [q] denotes (the conversion
    ECMAScript writes as a blackboard F). *)
Definition nearest (q : Q) : float64 :=
  match (q ?= 0)%Q with
  | Eq => FFinite false 0 0
  | Gt => nearest_positive false q
  | Lt => nearest_positive true (- q)
  end.

Definition Number_of_Q (q : Q) : number := check (nearest q).

(** The number an integer literal denotes; below [2^53] it is the integer
    itself. *)
Definition Number_of_Z (z : Z) : number :=
  if Z.abs z <? 2 ^ 53 then check (FFinite (z <? 0) (Z.abs z) 0)
  else Number_of_Q (inject_Z z).

(** A string literal of the source, written in ASCII. *)
Definition lit (s : string) : jsstring :=
  map (fun a => Z.of_N (N_of_ascii a)) (list_ascii_of_string s).

(** Values of type [T | null | undefined]. *)
Inductive nullable (A : Type) : Type :=
| Undefined
| Null
| Just (a : A).
Arguments Undefined {A}.
Arguments Null {A}.
Arguments Just {A} a.

(** [x?.f]: short-circuits to [undefined] when [x] is [null] or
    [undefined]. *)
Definition opt_chain {A B} (x : nullable A) (f : A -> nullable B) : nullable B :=
  match x with
  | Just a => f a
  | Undefined | Null => Undefined
  end.

(** [x || y] on an optional string: the empty string is falsy. *)
Definition logical_or (x : nullable jsstring) (y : jsstring) : jsstring :=
  match x with
  | Just (c :: s) => c :: s
  | Just [] | Undefined | Null => y
  end.

(** [x ?? y]. *)
Definition nullish {A} (x y : nullable A) : nullable A :=
  match x with
  | Just a => Just a
  | Undefined | Null => y
  end.

(** *** [Number.prototype.toString()], radix 10

    For a positive finite [x], ECMAScript takes integers [n], [k], [s]
    with [k >= 1], [10^(k-1) <= s < 10^k], [s * 10^(n-k)] a value that
    rounds to [x], and [k] as small as possible; among several [s], the
    one nearest to [x], the even one on a tie. *)

(** [q] rounds to the positive finite number of value [x]. *)
Definition rounds_to (q x : Q) : bool :=
  match nearest q with
  | FFinite false m e => Qeq_bool (magnitude m e) x
  | _ => false
  end.

(** The number of decimal digits of a natural number. *)
Definition digits10 (z : Z) : Z :=
  Z.of_nat (Decimal.nb_digits (N.to_uint (Z.to_N z))).

(** The [n] with [10^(n-1) <= x < 10^n]. *)
Definition decimal_exponent (x : Q) : Z :=
  if Qle_bool 1 x then digits10 (Qfloor x) else 1 - digits10 (Qfloor (/ x)).

(** The pairs [(n, s)] that render [x] with [k] digits. *)
Definition candidates (x : Q) (k : Z) : list (Z * Z) :=
  let n0 := decimal_exponent x in
  flat_map
    (fun n =>
       let f := Qfloor (x / 10 ^ (n - k)) in
       filter
         (fun c =>
            let s := snd c in
            (10 ^ (k - 1) <=? s) && (s <? 10 ^ k)
            && rounds_to (inject_Z s * 10 ^ (n - k)) x)
         [(n, f); (n, f + 1)])
    [n0 - 1; n0; n0 + 1].

Definition distance (x : Q) (k : Z) (c : Z * Z) : Q :=
  Qabs (inject_Z (snd c) * 10 ^ (fst c - k) - x).

Definition closer (x : Q) (k : Z) (c best : Z * Z) : Z * Z :=
  match (distance x k c ?= distance x k best)%Q with
  | Lt => c
  | Gt => best
  | Eq => if Z.even (snd c) then c else best
  end.

Definition closest (x : Q) (k : Z) (cs : list (Z * Z)) : option (Z * Z) :=
  match cs with
  | [] => None
  | c :: cs' => Some (fold_left (fun best c' => closer x k c' best) cs' c)
  end.

(** The least [k] that has a candidate, from [k] on.  Seventeen digits
    render every binary64 value, so the search ends by [k = 17]; the
    seventeen nearest digits stand where the fuel runs out. *)
Fixpoint shortest_from (x : Q) (k : Z) (fuel : nat) : Z * Z * Z :=
  match fuel with
  | O =>
      let n := decimal_exponent x in
      (k, n, round_half_even (x / 10 ^ (n - k)))
  | S fuel' =>
      match closest x k (candidates x k) with
      | Some (n, s) => (k, n, s)
      | None => shortest_from x (k + 1) fuel'
      end
  end.

Definition shortest (x : Q) : Z * Z * Z := shortest_from x 1 16.

(** The decimal digits of a natural number. *)
Definition digits_of (s : Z) : jsstring :=
  lit (NilZero.string_of_uint (N.to_uint (Z.to_N s))).

Definition zeros (n : Z) : jsstring := repeat 48 (Z.to_nat n).

(** The string for [n], [k], [s]: the digits padded with zeros, the
    digits around a decimal point, or exponential notation outside
    [10^-7 .. 10^21]. *)
Definition format (k n s : Z) : jsstring :=
  match digits_of s with
  | [] => lit "0"
  | d :: ds =>
      if (k <=? n) && (n <=? 21) then d :: ds ++ zeros (n - k)
      else if (0 <? n) && (n <=? 21) then
        d :: firstn (Z.to_nat (n - 1)) ds
          ++ lit "." ++ skipn (Z.to_nat (n - 1)) ds
      else if (-6 <? n) && (n <=? 0) then
        lit "0." ++ zeros (- n) ++ d :: ds
      else
        d :: match ds with
             | [] => []
             | _ :: _ => lit "." ++ ds
             end
          ++ lit "e" ++ (if 0 <? n - 1 then lit "+" else lit "-")
          ++ digits_of (Z.abs (n - 1))
  end.

(** The integer [m * 2^e], when it is one. *)
Definition as_integer (m e : Z) : option Z :=
  if 0 <=? e then Some (m * 2 ^ e)
  else if m mod 2 ^ (- e) =? 0 then Some (m / 2 ^ (- e))
  else None.

Definition shortest_rendering (m e : Z) : jsstring :=
  let '(k, n, s) := shortest (magnitude m e) in format k n s.

(** An integer below [2^53] is rendered by its own digits: its
    neighbours among the numbers are at least half a unit away, so no
    shorter numeral rounds to it. *)
Definition toString_positive (m e : Z) : jsstring :=
  match as_integer m e with
  | Some z => if z <? 2 ^ 53 then digits_of z else shortest_rendering m e
  | None => shortest_rendering m e
  end.

Definition Number_toString (v : number) : jsstring :=
  match v.(float) with
  | FNaN => lit "NaN"
  | FInfinity negative => if negative then lit "-Infinity" else lit "Infinity"
  | FFinite negative m e =>
      if m =? 0 then lit "0"
      else (if negative then lit "-" else []) ++ toString_positive m e
  end.

(** *** UTF-16 *)

Definition is_high_surrogate (c : Z) : bool := (0xD800 <=? c) && (c <=? 0xDBFF).
Definition is_low_surrogate (c : Z) : bool := (0xDC00 <=? c) && (c <=? 0xDFFF).

(** [String.prototype.isWellFormed]: no lone surrogate (and, the units
    being integers here, every unit within 16 bits). *)
Fixpoint isWellFormed (s : jsstring) : bool :=
  match s with
  | [] => true
  | c :: rest =>
      if is_high_surrogate c then
        match rest with
        | d :: rest' => is_low_surrogate d && isWellFormed rest'
        | [] => false
        end
      else negb (is_low_surrogate c) && (0 <=? c) && (c <? 0x10000)
           && isWellFormed rest
  end.

(** The code point denoted by a surrogate pair. *)
Definition surrogate_pair (hi lo : Z) : Z :=
  Z.shiftl (hi - 0xD800) 10 + (lo - 0xDC00) + 0x10000.

(** The code units of a code point. *)
Definition utf16_units (cp : Z) : jsstring :=
  if cp <? 0x10000 then [cp]
  else [0xD800 + Z.shiftr (cp - 0x10000) 10;
        0xDC00 + Z.land (cp - 0x10000) 0x3FF].

(** *** UTF-8 *)

(** The octets of one code point. *)
Definition utf8_octets (cp : Z) : Buffer :=
  if cp <? 0x80 then [cp]
  else if cp <? 0x800 then
    [Z.lor 0xC0 (Z.shiftr cp 6);
     Z.lor 0x80 (Z.land cp 0x3F)]
  else if cp <? 0x10000 then
    [Z.lor 0xE0 (Z.shiftr cp 12);
     Z.lor 0x80 (Z.land (Z.shiftr cp 6) 0x3F);
     Z.lor 0x80 (Z.land cp 0x3F)]
  else
    [Z.lor 0xF0 (Z.shiftr cp 18);
     Z.lor 0x80 (Z.land (Z.shiftr cp 12) 0x3F);
     Z.lor 0x80 (Z.land (Z.shiftr cp 6) 0x3F);
     Z.lor 0x80 (Z.land cp 0x3F)].

Definition replacement_character : Z := 0xFFFD.

(** [Buffer.from(s, 'utf8')]: pairs of surrogates are combined, a lone
    surrogate is written as U+FFFD. *)
Fixpoint Buffer_from_utf8 (s : jsstring) : Buffer :=
  match s with
  | [] => []
  | c :: rest =>
      if is_high_surrogate c then
        match rest with
        | d :: rest' =>
            if is_low_surrogate d
            then utf8_octets (surrogate_pair c d) ++ Buffer_from_utf8 rest'
            else utf8_octets replacement_character ++ Buffer_from_utf8 rest
        | [] => utf8_octets replacement_character
        end
      else if is_low_surrogate c
      then utf8_octets replacement_character ++ Buffer_from_utf8 rest
      else utf8_octets c ++ Buffer_from_utf8 rest
  end.

(** State of the UTF-8 decoder: between characters, or inside one, with
    the bits gathered so far, the number of continuation octets still due
    and the bounds the next octet must respect. *)
Inductive utf8_state : Type :=
| Idle
| Pending (cp : Z) (due : nat) (lower upper : Z).

Definition in_range (lo hi b : Z) : bool := (lo <=? b) && (b <=? hi).

(** A first octet. *)
Definition utf8_lead (b : Z) : utf8_state * jsstring :=
  if in_range 0x00 0x7F b then (Idle, [b])
  else if in_range 0xC2 0xDF b then
    (Pending (Z.land b 0x1F) 0 0x80 0xBF, [])
  else if in_range 0xE0 0xEF b then
    (Pending (Z.land b 0x0F) 1
       (if b =? 0xE0 then 0xA0 else 0x80)
       (if b =? 0xED then 0x9F else 0xBF), [])
  else if in_range 0xF0 0xF4 b then
    (Pending (Z.land b 0x07) 2
       (if b =? 0xF0 then 0x90 else 0x80)
       (if b =? 0xF4 then 0x8F else 0xBF), [])
  else (Idle, [replacement_character]).

(** One octet: returns the next state and the code units completed.  An
    octet that cannot continue the character at hand ends it with U+FFFD
    and is then read as a first octet. *)
Definition utf8_step (st : utf8_state) (b : Z) : utf8_state * jsstring :=
  match st with
  | Idle => utf8_lead b
  | Pending cp due lower upper =>
      if in_range lower upper b then
        let cp' := Z.lor (Z.shiftl cp 6) (Z.land b 0x3F) in
        match due with
        | O => (Idle, utf16_units cp')
        | S due' => (Pending cp' due' 0x80 0xBF, [])
        end
      else
        let (st', out) := utf8_lead b in
        (st', replacement_character :: out)
  end.

Fixpoint utf8_decode (st : utf8_state) (bs : Buffer) : jsstring :=
  match bs with
  | [] =>
      match st with
      | Idle => []
      | Pending _ _ _ _ => [replacement_character]
      end
  | b :: bs' =>
      let (st', out) := utf8_step st b in
      out ++ utf8_decode st' bs'
  end.

(** [buf.toString()], whose default encoding is ['utf8']: ill-formed
    input decodes to U+FFFD, one per maximal ill-formed prefix. *)
Definition Buffer_toString (b : Buffer) : jsstring := utf8_decode Idle b.

End Js.
Import Js.


(* ================================================================== *)
(** ** The client library

    [@google-cloud/secret-manager] is an external dependency.  This
    module fixes what the code sees of it: the shapes of the objects it
    sends, the fields it reads from what comes back, and the convention
    (visible in the source's [const [x] = await client.m(..)]) that a
    call settles to an array whose first element is the response. *)

Module protos.

Module IAutomatic.
Record t : Type := Build {}.
End IAutomatic.

Module IReplica.
Record t : Type := { location : nullable jsstring }.
End IReplica.

Module IUserManaged.
Record t : Type := { replicas : list IReplica.t }.
End IUserManaged.

Module IReplication.
Record t : Type :=
  { automatic : nullable IAutomatic.t;
    userManaged : nullable IUserManaged.t }.
End IReplication.

Module ISecret.
Record t : Type :=
  { name : nullable jsstring;
    replication : nullable IReplication.t }.
End ISecret.

Module ISecretVersion.
Record t : Type := { name : nullable jsstring }.
End ISecretVersion.

Module ISecretPayload.
Record t : Type := { data : nullable Buffer }.
End ISecretPayload.

Module IAccessSecretVersionResponse.
Record t : Type :=
  { name : nullable jsstring;
    payload : nullable ISecretPayload.t }.
End IAccessSecretVersionResponse.

Module IEmpty.
Record t : Type := Build {}.
End IEmpty.

(** The request objects, with the properties the code sets. *)

Module IListSecretsRequest.
Record t : Type := { parent : jsstring }.
End IListSecretsRequest.

Module IListSecretVersionsRequest.
Record t : Type := { parent : jsstring }.
End IListSecretVersionsRequest.

Module ICreateSecretRequest.
Record t : Type :=
  { parent : jsstring;
    secretId : jsstring;
    secret : ISecret.t }.
End ICreateSecretRequest.

Module IGetSecretRequest.
Record t : Type := { name : jsstring }.
End IGetSecretRequest.

Module IDeleteSecretRequest.
Record t : Type := { name : jsstring }.
End IDeleteSecretRequest.

Module IAddSecretVersionRequest.
Record t : Type :=
  { parent : jsstring;
    payload : ISecretPayload.t }.
End IAddSecretVersionRequest.

Module IAccessSecretVersionRequest.
Record t : Type := { name : jsstring }.
End IAccessSecretVersionRequest.

End protos.
Import protos.

Module Gax.

(** A client object, known by its identity. *)
Definition SecretManagerServiceClient : Type := nat.

(** The raw response, third element of a settled call. *)
Record RawResponse : Type := Build_RawResponse {}.

(** What a call settles to: [[response, request | undefined,
    {} | undefined]]. *)
Definition Reply (A Rq : Type) : Type :=
  (A * nullable Rq * nullable RawResponse)%type.

(** The methods of the client this code calls, each with its argument;
    the index is the type of the array the call settles to. *)
Inductive call : Type -> Type :=
| listSecrets (request : IListSecretsRequest.t) :
    call (Reply (list ISecret.t) IListSecretsRequest.t)
| listSecretVersions (request : IListSecretVersionsRequest.t) :
    call (Reply (list ISecretVersion.t) IListSecretVersionsRequest.t)
| createSecret (request : ICreateSecretRequest.t) :
    call (Reply ISecret.t ICreateSecretRequest.t)
| getSecret (request : IGetSecretRequest.t) :
    call (Reply ISecret.t IGetSecretRequest.t)
| deleteSecret (request : IDeleteSecretRequest.t) :
    call (Reply IEmpty.t IDeleteSecretRequest.t)
| addSecretVersion (request : IAddSecretVersionRequest.t) :
    call (Reply ISecretVersion.t IAddSecretVersionRequest.t)
| accessSecretVersion (request : IAccessSecretVersionRequest.t) :
    call (Reply (nullable IAccessSecretVersionResponse.t)
            IAccessSecretVersionRequest.t).

(** The failures of the service (spec, section 7). *)
Inductive ServiceError : Type :=
| NotFound
| AlreadyExists
| PermissionDenied
| Unauthenticated
| InvalidArgument
| Unavailable.

End Gax.

(** *** Asynchronous functions

    The body of an [async] function: it returns, or awaits a client call
    and goes on with what the call settled to.  The code has no
    [try]/[catch]: a rejected call rejects the whole function. *)

Inductive Async (A : Type) : Type :=
| Return (a : A)
| Await {R : Type} (client : Gax.SecretManagerServiceClient)
    (c : Gax.call R) (k : R -> Async A).
Arguments Return {A} a.
Arguments Await {A R} client c k.

Fixpoint bind {A B} (p : Async A) (f : A -> Async B) : Async B :=
  match p with
  | Return a => f a
  | Await client c k => Await client c (fun r => bind (k r) f)
  end.

(** [await client.m(request)]. *)
Definition await {R} (client : Gax.SecretManagerServiceClient)
  (c : Gax.call R) : Async R :=
  Await client c Return.

Notation "'let*' p ':=' c 'in' k" := (bind c (fun p => k))
  (at level 10, p pattern, c at level 100, k at level 200, only parsing).

(** How a promise settles. *)
Inductive Settled (A : Type) : Type :=
| Fulfilled (a : A)
| Rejected (e : Gax.ServiceError).
Arguments Fulfilled {A} a.
Arguments Rejected {A} e.

(** An implementation of the client over a state [St] of the service. *)
Definition Handler (St : Type) : Type :=
  forall R, Gax.SecretManagerServiceClient -> Gax.call R -> St -> Settled R * St.

(** Running a function against an implementation of the client. *)
Fixpoint run {St A} (h : Handler St) (p : Async A) (st : St) : Settled A * St :=
  match p with
  | Return a => (Fulfilled a, st)
  | Await client c k =>
      match h _ client c st with
      | (Fulfilled r, st') => run h (k r) st'
      | (Rejected e, st') => (Rejected e, st')
      end
  end.

(** Every call a function can issue, whatever the client answers,
    satisfies [P]. *)
Inductive EveryCall (P : forall R, Gax.call R -> Prop) {A} : Async A -> Prop :=
| EveryCall_Return (a : A) : EveryCall P (Return a)
| EveryCall_Await {R} client (c : Gax.call R) (k : R -> Async A) :
    P R c -> (forall r, EveryCall P (k r)) -> EveryCall P (Await client c k).

(* ================================================================== *)
(** ** Objects of the code *)

(** [baseInput] and [requiredInput], declared alike in [index.ts] and in
    [types.ts].  An intersection [T & { f }] is the record [T] extended
    with [f]. *)
Record baseInput : Type :=
  { parent : jsstring;
    client : Gax.SecretManagerServiceClient }.

Record requiredInput : Type :=
  { base :> baseInput;
    secretId : jsstring }.

(** [requiredInput & { readonly secretContent: string }] *)
Record contentInput : Type :=
  { content_required :> requiredInput;
    secretContent : jsstring }.

(** [requiredInput & { readonly secretVersion: string }] *)
Record versionInput : Type :=
  { version_required :> requiredInput;
    secretVersion : jsstring }.

(** The property names of a secret handle, and what each property holds.
    A function without parameters is the [Async] body it runs when
    called. *)
Module Key.

Inductive t : Type :=
| create
| get
| delete
| addVersion
| access
| accessOnlyLatest.

Definition name (k : t) : string :=
  match k with
  | create => "create"
  | get => "get"
  | delete => "delete"
  | addVersion => "addVersion"
  | access => "access"
  | accessOnlyLatest => "accessOnlyLatest"
  end.

Definition eq_dec (a b : t) : {a = b} + {a <> b}.
Proof. decide equality. Defined.

Definition member (k : t) : Type :=
  match k with
  | create => Async ISecret.t
  | get => Async ISecret.t
  | delete => Async (Gax.Reply IEmpty.t IDeleteSecretRequest.t)
  | addVersion => jsstring -> Async ISecretVersion.t
  | access => nullable number -> Async (nullable jsstring)
  | accessOnlyLatest => Async (nullable jsstring)
  end.

End Key.

(** An object literal: its properties in the order they are written. *)
Definition object : Type := list {k : Key.t & Key.member k}.

Definition property (k : Key.t) (m : Key.member k) : {k : Key.t & Key.member k} :=
  existT Key.member k m.

(** [Object.keys(o)] *)
Definition keys (o : object) : list Key.t := map (@projT1 _ _) o.

(** [o.k], [None] standing for a property the object does not have. *)
Fixpoint lookup (k : Key.t) (o : object) : option (Key.member k) :=
  match o with
  | [] => None
  | existT _ k' m :: o' =>
      match Key.eq_dec k' k with
      | left e => Some (eq_rect k' Key.member m k e)
      | right _ => lookup k o'
      end
  end.

(** A module's exports: the exported names, each with its value. *)
Definition exports_table : Type := list (string * {T : Type & T}).

Definition exported {T : Type} (name : string) (v : T) : string * {T : Type & T} :=
  (name, existT (fun T => T) T v).

Definition export_names (e : exports_table) : list string := map fst e.

(** [baseOutput]: the project-level handle. *)
Module baseOutput.
Record t : Type :=
  { client : Gax.SecretManagerServiceClient;
    list : Async (List.list ISecret.t);
    secret : jsstring -> object;
    versions : Async (List.list ISecretVersion.t) }.
End baseOutput.

(* ================================================================== *)
(** ** [index.ts] *)

Module TS.

Definition listSecrets (input : baseInput) : Async (list ISecret.t) :=
  let client := input.(client) in
  let parent := input.(parent) in
  let* (secrets, _, _) :=
    await client (Gax.listSecrets {| IListSecretsRequest.parent := parent |}) in
  Return secrets.

Definition versions (input : baseInput) : Async (list ISecretVersion.t) :=
  let client := input.(client) in
  let parent := input.(parent) in
  let* (versions, _, _) :=
    await client
      (Gax.listSecretVersions {| IListSecretVersionsRequest.parent := parent |}) in
  Return versions.

Definition createSecret (input : requiredInput) : Async ISecret.t :=
  let parent := input.(parent) in
  let client := input.(client) in
  let secretId := input.(secretId) in
  let* (secret, _, _) :=
    await client
      (Gax.createSecret
         {| ICreateSecretRequest.parent := parent;
            ICreateSecretRequest.secretId := secretId;
            ICreateSecretRequest.secret :=
              {| ISecret.name := Undefined;
                 ISecret.replication :=
                   Just {| IReplication.automatic := Just IAutomatic.Build;
                           IReplication.userManaged := Undefined |} |} |}) in
  Return secret.

Definition getSecret (input : requiredInput) : Async ISecret.t :=
  let secretId := input.(secretId) in
  let client := input.(client) in
  let parent := input.(parent) in
  let* (secret, _, _) :=
    await client
      (Gax.getSecret
         {| IGetSecretRequest.name := parent ++ lit "/secrets/" ++ secretId |}) in
  Return secret.

(** [return client.deleteSecret(..)]: the promise of the call itself is
    returned, so the function settles to whatever the call settles to. *)
Definition deleteSecret (input : requiredInput)
  : Async (Gax.Reply IEmpty.t IDeleteSecretRequest.t) :=
  let secretId := input.(secretId) in
  let client := input.(client) in
  let parent := input.(parent) in
  await client
    (Gax.deleteSecret
       {| IDeleteSecretRequest.name := parent ++ lit "/secrets/" ++ secretId |}).

Definition addNewVersion (input : contentInput) : Async ISecretVersion.t :=
  let secretId := input.(secretId) in
  let client := input.(client) in
  let secretContent := input.(secretContent) in
  let parent := input.(parent) in
  let* (version, _, _) :=
    await client
      (Gax.addSecretVersion
         {| IAddSecretVersionRequest.parent :=
              parent ++ lit "/secrets/" ++ secretId;
            IAddSecretVersionRequest.payload :=
              {| ISecretPayload.data := Just (Buffer_from_utf8 secretContent) |} |}) in
  Return version.

Definition access (input : versionInput) : Async (nullable jsstring) :=
  let secretId := input.(secretId) in
  let client := input.(client) in
  let secretVersion := input.(secretVersion) in
  let parent := input.(parent) in
  let* (accessResponse, _, _) :=
    await client
      (Gax.accessSecretVersion
         {| IAccessSecretVersionRequest.name :=
              parent ++ lit "/secrets/" ++ secretId
                     ++ lit "/versions/" ++ secretVersion |}) in
  Return
    (nullish
       (opt_chain
          (opt_chain
             (opt_chain accessResponse IAccessSecretVersionResponse.payload)
             ISecretPayload.data)
          (fun data => Just (Buffer_toString data)))
       Null).

Definition accessOnlyLatest (input : requiredInput) : Async (nullable jsstring) :=
  let secretId := input.(secretId) in
  let client := input.(client) in
  let parent := input.(parent) in
  let* (accessResponse, _, _) :=
    await client
      (Gax.accessSecretVersion
         {| IAccessSecretVersionRequest.name :=
              parent ++ lit "/secrets/" ++ secretId
                     ++ lit "/versions/latest" |}) in
  Return
    (nullish
       (opt_chain
          (opt_chain
             (opt_chain accessResponse IAccessSecretVersionResponse.payload)
             ISecretPayload.data)
          (fun data => Just (Buffer_toString data)))
       Null).

Definition makeSecrets (input : requiredInput) : object :=
  let secretInput :=
    {| base := {| parent := input.(parent); client := input.(client) |};
       secretId := input.(secretId) |} in
  [ property Key.create (createSecret secretInput);
    property Key.get (getSecret secretInput);
    property Key.delete (deleteSecret secretInput);
    property Key.addVersion
      (fun secretContent =>
         addNewVersion
           {| content_required := secretInput;
              secretContent := secretContent |});
    property Key.access
      (fun version =>
         access
           {| version_required := secretInput;
              secretVersion :=
                logical_or
                  (opt_chain version (fun v => Just (Number_toString v)))
                  (lit "latest") |});
    property Key.accessOnlyLatest (accessOnlyLatest secretInput) ].

(** [new SecretManagerServiceClient()] is the argument [client]: the
    object the constructor yields. *)
Definition makeSecretsWithProject (client : Gax.SecretManagerServiceClient)
  (parent : jsstring) : baseOutput.t :=
  {| baseOutput.list := listSecrets {| parent := parent; client := client |};
     baseOutput.versions := versions {| parent := parent; client := client |};
     baseOutput.client := client;
     baseOutput.secret := fun secretId =>
       makeSecrets
         {| base := {| parent := parent; client := client |};
            secretId := secretId |} |}.

(** The [export const] declarations. *)
Definition exports : exports_table :=
  [ exported "makeSecretsWithProject" makeSecretsWithProject;
    exported "listSecrets" listSecrets;
    exported "versions" versions;
    exported "createSecret" createSecret;
    exported "getSecret" getSecret;
    exported "deleteSecret" deleteSecret;
    exported "addNewVersion" addNewVersion;
    exported "access" access;
    exported "accessOnlyLatest" accessOnlyLatest ].

End TS.

(* ================================================================== *)
(** ** [output/index.js] *)

Module Output.

Definition listSecrets (input : baseInput) : Async (list ISecret.t) :=
  let client := input.(client) in
  let parent := input.(parent) in
  let* (secrets, _, _) :=
    await client (Gax.listSecrets {| IListSecretsRequest.parent := parent |}) in
  Return secrets.

Definition versions (input : baseInput) : Async (list ISecretVersion.t) :=
  let client := input.(client) in
  let parent := input.(parent) in
  let* (versions, _, _) :=
    await client
      (Gax.listSecretVersions {| IListSecretVersionsRequest.parent := parent |}) in
  Return versions.

Definition createSecret (input : requiredInput) : Async ISecret.t :=
  let parent := input.(parent) in
  let client := input.(client) in
  let secretId := input.(secretId) in
  let* (secret, _, _) :=
    await client
      (Gax.createSecret
         {| ICreateSecretRequest.parent := parent;
            ICreateSecretRequest.secretId := secretId;
            ICreateSecretRequest.secret :=
              {| ISecret.name := Undefined;
                 ISecret.replication :=
                   Just {| IReplication.automatic := Just IAutomatic.Build;
                           IReplication.userManaged := Undefined |} |} |}) in
  Return secret.

Definition getSecret (input : requiredInput) : Async ISecret.t :=
  let secretId := input.(secretId) in
  let client := input.(client) in
  let parent := input.(parent) in
  let* (secret, _, _) :=
    await client
      (Gax.getSecret
         {| IGetSecretRequest.name := parent ++ lit "/secrets/" ++ secretId |}) in
  Return secret.

Definition deleteSecret (input : requiredInput)
  : Async (Gax.Reply IEmpty.t IDeleteSecretRequest.t) :=
  let secretId := input.(secretId) in
  let client := input.(client) in
  let parent := input.(parent) in
  await client
    (Gax.deleteSecret
       {| IDeleteSecretRequest.name := parent ++ lit "/secrets/" ++ secretId |}).

Definition addNewVersion (input : contentInput) : Async ISecretVersion.t :=
  let secretId := input.(secretId) in
  let client := input.(client) in
  let secretContent := input.(secretContent) in
  let parent := input.(parent) in
  let* (version, _, _) :=
    await client
      (Gax.addSecretVersion
         {| IAddSecretVersionRequest.parent :=
              parent ++ lit "/secrets/" ++ secretId;
            IAddSecretVersionRequest.payload :=
              {| ISecretPayload.data := Just (Buffer_from_utf8 secretContent) |} |}) in
  Return version.

Definition access (input : versionInput) : Async (nullable jsstring) :=
  let secretId := input.(secretId) in
  let client := input.(client) in
  let secretVersion := input.(secretVersion) in
  let parent := input.(parent) in
  let* (accessResponse, _, _) :=
    await client
      (Gax.accessSecretVersion
         {| IAccessSecretVersionRequest.name :=
              parent ++ lit "/secrets/" ++ secretId
                     ++ lit "/versions/" ++ secretVersion |}) in
  Return
    (nullish
       (opt_chain
          (opt_chain
             (opt_chain accessResponse IAccessSecretVersionResponse.payload)
             ISecretPayload.data)
          (fun data => Just (Buffer_toString data)))
       Null).

Definition makeSecrets (input : requiredInput) : object :=
  let secretInput :=
    {| base := {| parent := input.(parent); client := input.(client) |};
       secretId := input.(secretId) |} in
  [ property Key.create (createSecret secretInput);
    property Key.get (getSecret secretInput);
    property Key.delete (deleteSecret secretInput);
    property Key.addVersion
      (fun secretContent =>
         addNewVersion
           {| content_required := secretInput;
              secretContent := secretContent |});
    property Key.access
      (fun version =>
         access
           {| version_required := secretInput;
              secretVersion :=
                logical_or
                  (opt_chain version (fun v => Just (Number_toString v)))
                  (lit "latest") |}) ].

Definition makeSecretsWithProject (client : Gax.SecretManagerServiceClient)
  (parent : jsstring) : baseOutput.t :=
  {| baseOutput.list := listSecrets {| parent := parent; client := client |};
     baseOutput.versions := versions {| parent := parent; client := client |};
     baseOutput.client := client;
     baseOutput.secret := fun secretId =>
       makeSecrets
         {| base := {| parent := parent; client := client |};
            secretId := secretId |} |}.

(** The [exports.x = x] assignments that end the file. *)
Definition exports : exports_table :=
  [ exported "access" access;
    exported "addNewVersion" addNewVersion;
    exported "createSecret" createSecret;
    exported "deleteSecret" deleteSecret;
    exported "getSecret" getSecret;
    exported "listSecrets" listSecrets;
    exported "makeSecretsWithProject" makeSecretsWithProject;
    exported "versions" versions ].

End Output.

(* ================================================================== *)
(** ** Values as the runtime holds them

    The declared return type of a TypeScript function is erased when it
    runs; [reify] gives the JavaScript value behind a typed one, so that a
    result can be compared with what a signature promises. *)

#[warnings="-register-all"] Inductive value : Type :=
| VUndefined
| VNull
| VString (s : jsstring)
| VObject (properties : list (string * value))
| VArray (items : list value).

Class Reify (A : Type) : Type := reify : A -> value.

#[export] Instance reify_nullable {A} `{Reify A} : Reify (nullable A) :=
  fun x =>
    match x with
    | Undefined => VUndefined
    | Null => VNull
    | Just a => reify a
    end.

#[export] Instance reify_IEmpty : Reify IEmpty.t :=
  fun _ => VObject [].

#[export] Instance reify_RawResponse : Reify Gax.RawResponse :=
  fun _ => VObject [].

#[export] Instance reify_IDeleteSecretRequest : Reify IDeleteSecretRequest.t :=
  fun request => VObject [("name"%string, VString request.(IDeleteSecretRequest.name))].

#[export] Instance reify_Reply {A Rq} `{Reify A} `{Reify Rq} : Reify (Gax.Reply A Rq) :=
  fun '(response, request, raw) =>
    VArray [reify response; reify request; reify raw].

(* ================================================================== *)
(** ** A reference model of the service

    The service is external; this model follows what the spec says of it
    (sections 4.2, 6 and 8): secrets named [{parent}/secrets/{secretId}],
    each with its versions numbered from 1 and reachable as
    [{secret}/versions/{n}] or [{secret}/versions/latest]; creating twice
    fails with AlreadyExists, reaching what is absent with NotFound. *)

Module Service.

Record entry : Type :=
  { resource : jsstring;
    descriptor : ISecret.t;
    (** the payload of each version, oldest first; [None] once destroyed *)
    payloads : list (option Buffer) }.

Definition state : Type := list entry.

Definition eqb (a b : jsstring) : bool :=
  if list_eq_dec Z.eq_dec a b then true else false.

Fixpoint starts_with (prefix s : jsstring) : bool :=
  match prefix, s with
  | [], _ => true
  | p :: prefix', c :: s' => (p =? c) && starts_with prefix' s'
  | _ :: _, [] => false
  end.

Definition find_secret (name : jsstring) (st : state) : option entry :=
  find (fun e => eqb e.(resource) name) st.

(** Replaces the first secret called [name] by its image under [f]. *)
Fixpoint amend (name : jsstring) (f : entry -> entry) (st : state) : state :=
  match st with
  | [] => []
  | e :: st' =>
      if eqb e.(resource) name then f e :: st' else e :: amend name f st'
  end.

(** Drops the first secret called [name]. *)
Fixpoint drop (name : jsstring) (st : state) : state :=
  match st with
  | [] => []
  | e :: st' => if eqb e.(resource) name then st' else e :: drop name st'
  end.

Definition version_name (secret : jsstring) (n : Z) : jsstring :=
  secret ++ lit "/versions/" ++ lit (NilZero.string_of_int (Z.to_int n)).

Definition latest_name (secret : jsstring) : jsstring :=
  secret ++ lit "/versions/latest".

(** The versions of a secret under their names, numbered from [n]. *)
Fixpoint numbered (secret : jsstring) (n : Z) (ps : list (option Buffer))
  : list (jsstring * option Buffer) :=
  match ps with
  | [] => []
  | p :: ps' => (version_name secret n, p) :: numbered secret (n + 1) ps'
  end.

Definition versions_of (e : entry) : list (jsstring * option Buffer) :=
  numbered e.(resource) 1 e.(payloads).

(** The version a name denotes, with its payload. *)
Definition resolve (name : jsstring) (st : state)
  : option (jsstring * option Buffer) :=
  match find (fun e => eqb (latest_name e.(resource)) name) st with
  | Some e =>
      match rev (versions_of e) with
      | v :: _ => Some v
      | [] => None
      end
  | None => find (fun v => eqb (fst v) name) (flat_map versions_of st)
  end.

Definition settle {A Rq} (a : A) : Gax.Reply A Rq := (a, Undefined, Undefined).

Definition handler : Handler state :=
  fun R _ c =>
    match c in Gax.call R return state -> Settled R * state with
    | Gax.listSecrets request => fun st =>
        let prefix := request.(IListSecretsRequest.parent) ++ lit "/secrets/" in
        (Fulfilled
           (settle
              (map descriptor
                 (filter (fun e => starts_with prefix e.(resource)) st))), st)
    | Gax.listSecretVersions request => fun st =>
        match find_secret request.(IListSecretVersionsRequest.parent) st with
        | Some e =>
            (Fulfilled
               (settle
                  (map (fun v => {| ISecretVersion.name := Just (fst v) |})
                     (versions_of e))), st)
        | None => (Rejected Gax.NotFound, st)
        end
    | Gax.createSecret request => fun st =>
        let name :=
          request.(ICreateSecretRequest.parent) ++ lit "/secrets/"
            ++ request.(ICreateSecretRequest.secretId) in
        match find_secret name st with
        | Some _ => (Rejected Gax.AlreadyExists, st)
        | None =>
            let created :=
              {| ISecret.name := Just name;
                 ISecret.replication :=
                   request.(ICreateSecretRequest.secret).(ISecret.replication) |} in
            (Fulfilled (settle created),
             st ++ [{| resource := name; descriptor := created; payloads := [] |}])
        end
    | Gax.getSecret request => fun st =>
        match find_secret request.(IGetSecretRequest.name) st with
        | Some e => (Fulfilled (settle e.(descriptor)), st)
        | None => (Rejected Gax.NotFound, st)
        end
    | Gax.deleteSecret request => fun st =>
        match find_secret request.(IDeleteSecretRequest.name) st with
        | Some _ =>
            (Fulfilled (settle IEmpty.Build),
             drop request.(IDeleteSecretRequest.name) st)
        | None => (Rejected Gax.NotFound, st)
        end
    | Gax.addSecretVersion request => fun st =>
        let secret := request.(IAddSecretVersionRequest.parent) in
        match find_secret secret st,
              request.(IAddSecretVersionRequest.payload).(ISecretPayload.data) with
        | Some e, Just bytes =>
            (Fulfilled
               (settle
                  {| ISecretVersion.name :=
                       Just (version_name secret
                               (Z.of_nat (List.length e.(payloads)) + 1)) |}),
             amend secret
               (fun e =>
                  {| resource := e.(resource);
                     descriptor := e.(descriptor);
                     payloads := e.(payloads) ++ [Some bytes] |})
               st)
        | Some _, _ => (Rejected Gax.InvalidArgument, st)
        | None, _ => (Rejected Gax.NotFound, st)
        end
    | Gax.accessSecretVersion request => fun st =>
        match resolve request.(IAccessSecretVersionRequest.name) st with
        | Some (name, stored) =>
            (Fulfilled
               (settle
                  (Just
                     {| IAccessSecretVersionResponse.name := Just name;
                        IAccessSecretVersionResponse.payload :=
                          match stored with
                          | Some bytes =>
                              Just {| ISecretPayload.data := Just bytes |}
                          | None => Null
                          end |})), st)
        | None => (Rejected Gax.NotFound, st)
        end
    end.

End Service.

(* ================================================================== *)
(** ** The vocabulary of the specification *)

(** Resource naming scheme (spec, section 6). *)
Definition secret_resource (parent secretId : jsstring) : jsstring :=
  parent ++ lit "/secrets/" ++ secretId.

Definition version_resource (parent secretId version : jsstring) : jsstring :=
  parent ++ lit "/secrets/" ++ secretId ++ lit "/versions/" ++ version.

(** The response of a settled call: the first element of the array. *)
Definition response_of {A Rq} (reply : Gax.Reply A Rq) : A :=
  let '(response, _, _) := reply in response.

(** "A single round trip": the function calls [c] on [client] once and
    returns [result] of what the call settled to. *)
Definition round_trip {A R} (p : Async A)
  (client : Gax.SecretManagerServiceClient) (c : Gax.call R)
  (result : R -> A) : Prop :=
  exists k, p = Await client c k /\ forall r, k r = Return (result r).

(** "The response carries payload data". *)
Definition carried_data (response : nullable IAccessSecretVersionResponse.t)
  : option Buffer :=
  match response with
  | Just r =>
      match r.(IAccessSecretVersionResponse.payload) with
      | Just p =>
          match p.(ISecretPayload.data) with
          | Just bytes => Some bytes
          | Undefined | Null => None
          end
      | Undefined | Null => None
      end
  | Undefined | Null => None
  end.

(** "The decoded UTF-8 string, or null if the response carries no
    payload". *)
Definition accessed_payload (response : nullable IAccessSecretVersionResponse.t)
  : nullable jsstring :=
  match carried_data response with
  | Some bytes => Just (Buffer_toString bytes)
  | None => Null
  end.

(** "Automatic replication policy ... no region pinning or custom
    replication policy": what a [createSecret] request must carry. *)
Definition automatic_replication : IReplication.t :=
  {| IReplication.automatic := Just IAutomatic.Build;
     IReplication.userManaged := Undefined |}.

Definition automatic_only (R : Type) (c : Gax.call R) : Prop :=
  match c with
  | Gax.createSecret request =>
      request.(ICreateSecretRequest.secret).(ISecret.replication)
      = Just automatic_replication
  | _ => True
  end.

(** Every call an operation of a handle can issue satisfies [P], whatever
    its argument. *)
Definition member_calls (P : forall R, Gax.call R -> Prop) (k : Key.t)
  : Key.member k -> Prop :=
  match k with
  | Key.create => fun m => EveryCall P m
  | Key.get => fun m => EveryCall P m
  | Key.delete => fun m => EveryCall P m
  | Key.addVersion => fun m => forall secretContent, EveryCall P (m secretContent)
  | Key.access => fun m => forall version, EveryCall P (m version)
  | Key.accessOnlyLatest => fun m => EveryCall P m
  end.

Definition object_calls (P : forall R, Gax.call R -> Prop) (o : object) : Prop :=
  Forall (fun p => member_calls P (projT1 p) (projT2 p)) o.

(** "A model of the external service in which accessing a version returns
    the payload bytes previously stored for it": once a version is added
    to a secret, the secret's latest version carries the bytes added. *)
Definition keeps_payloads {St} (h : Handler St) : Prop :=
  forall client client' secret bytes st version st',
    h _ client
      (Gax.addSecretVersion
         {| IAddSecretVersionRequest.parent := secret;
            IAddSecretVersionRequest.payload :=
              {| ISecretPayload.data := Just bytes |} |}) st
    = (Fulfilled version, st') ->
    exists reply st'',
      h _ client'
        (Gax.accessSecretVersion
           {| IAccessSecretVersionRequest.name :=
                secret ++ lit "/versions/latest" |}) st'
      = (Fulfilled reply, st'') /\
      carried_data (response_of reply) = Some bytes.

(** "[addVersion(content)] followed by [access()] (no argument) returns
    [content]", on the handle of [index.ts]. *)
Definition restores {St} (h : Handler St) (content : jsstring) : Prop :=
  forall (input : requiredInput) addVersion access st version st',
    lookup Key.addVersion (TS.makeSecrets input) = Some addVersion ->
    lookup Key.access (TS.makeSecrets input) = Some access ->
    run h (addVersion content) st = (Fulfilled version, st') ->
    exists st'',
      run h (access Undefined) st' = (Fulfilled (Just content), st'').

(** Shorthands for what [makeSecrets] builds: the context it captures, and
    the argument its [access] closure passes on. *)
Definition secretInput (input : requiredInput) : requiredInput :=
  {| base := {| parent := input.(parent); client := input.(client) |};
     secretId := input.(secretId) |}.

Definition resolved (input : requiredInput) (version : nullable number)
  : versionInput :=
  {| version_required := secretInput input;
     secretVersion :=
       logical_or (opt_chain version (fun v => Just (Number_toString v)))
         (lit "latest") |}.

(** Sample data: a handle, and a service that holds its secret. *)
Definition sample_input : requiredInput :=
  {| base := {| parent := lit "projects/p"; client := 0%nat |};
     secretId := lit "s" |}.

Definition sample_state : Service.state :=
  [ {| Service.resource := lit "projects/p/secrets/s";
       Service.descriptor :=
         {| ISecret.name := Just (lit "projects/p/secrets/s");
            ISecret.replication := Just automatic_replication |};
       Service.payloads := [] |} ].

(** Calling a property of a handle; a missing property is not a function,
    and calling it throws before any request is made. *)
Inductive Thrown : Type := TypeError.

Definition call0 {A} (m : option (Async A)) : Async (A + Thrown) :=
  match m with
  | Some body => let* a := body in Return (inl a)
  | None => Return (inr TypeError)
  end.

Definition call1 {X A} (m : option (X -> Async A)) (x : X) : Async (A + Thrown) :=
  match m with
  | Some f => let* a := f x in Return (inl a)
  | None => Return (inr TypeError)
  end.

(** Two runs of a handle against the service, after the testable
    properties of the spec (section 8). *)
Definition scenario_versions : Async (list (nullable jsstring + Thrown)) :=
  let handle := TS.makeSecrets sample_input in
  let* _ := call0 (lookup Key.create handle) in
  let* _ := call1 (lookup Key.addVersion handle) (lit "v1") in
  let* _ := call1 (lookup Key.addVersion handle) (lit "v2") in
  let* first := call1 (lookup Key.access handle) (Just (Number_of_Z 1)) in
  let* second := call1 (lookup Key.access handle) (Just (Number_of_Z 2)) in
  let* latest := call1 (lookup Key.access handle) Undefined in
  let* alias := call0 (lookup Key.accessOnlyLatest handle) in
  Return [first; second; latest; alias].

Definition scenario_create_twice : Async (ISecret.t + Thrown) :=
  let handle := TS.makeSecrets sample_input in
  let* _ := call0 (lookup Key.create handle) in
  call0 (lookup Key.create handle).

Definition scenario_get_after_delete : Async (ISecret.t + Thrown) :=
  let handle := TS.makeSecrets sample_input in
  let* _ := call0 (lookup Key.create handle) in
  let* _ := call0 (lookup Key.delete handle) in
  call0 (lookup Key.get handle).

(** *** UTF-8 and UTF-16, as the Unicode Standard tabulates them *)

(** A text is a sequence of Unicode scalar values: code points that are
    not surrogates. *)
Definition is_scalar_value (cp : Z) : bool :=
  ((0 <=? cp) && (cp <? 0xD800)) || ((0xE000 <=? cp) && (cp <? 0x110000)).

Definition is_text (text : list Z) : bool := forallb is_scalar_value text.

(** The UTF-8 form of a scalar value (Table 3-6): one octet below U+0080,
    two below U+0800, three below U+10000, four from there on, the bits
    of the value spread over them six at a time. *)
Definition utf8_of_scalar (cp : Z) : list Z :=
  if cp <? 0x80 then [cp]
  else if cp <? 0x800 then
    [0xC0 + cp / 64; 0x80 + cp mod 64]
  else if cp <? 0x10000 then
    [0xE0 + cp / 4096; 0x80 + cp / 64 mod 64; 0x80 + cp mod 64]
  else
    [0xF0 + cp / 262144; 0x80 + cp / 4096 mod 64;
     0x80 + cp / 64 mod 64; 0x80 + cp mod 64].

(** The UTF-16 form of a scalar value (Table 3-5): itself below U+10000,
    a pair of surrogates from there on. *)
Definition utf16_of_scalar (cp : Z) : list Z :=
  if cp <? 0x10000 then [cp]
  else [0xD800 + (cp - 0x10000) / 1024; 0xDC00 + (cp - 0x10000) mod 1024].

Definition UTF8 (text : list Z) : Buffer := flat_map utf8_of_scalar text.

Definition UTF16 (text : list Z) : jsstring := flat_map utf16_of_scalar text.

(** "[addVersion(content)] sends a request whose payload data is exactly
    the UTF-8 encoding of [content]": [content] is the UTF-16 form of a
    text, and the data are the UTF-8 form of that text. *)
Definition sends_utf8_of (input : requiredInput) (content : jsstring) : Prop :=
  exists (addVersion : jsstring -> Async ISecretVersion.t) (text : list Z),
    lookup Key.addVersion (TS.makeSecrets input) = Some addVersion /\
    is_text text = true /\
    UTF16 text = content /\
    round_trip (addVersion content) input.(client)
      (Gax.addSecretVersion
         {| IAddSecretVersionRequest.parent :=
              input.(parent) ++ lit "/secrets/" ++ input.(secretId);
            IAddSecretVersionRequest.payload :=
              {| ISecretPayload.data := Just (UTF8 text) |} |})
      response_of.

(** The payload data a function sends, when its first call adds a
    version. *)
Definition sent_data {A} (p : Async A) : option (nullable Buffer) :=
  match p with
  | Return _ => None
  | Await _ c _ =>
      match c with
      | Gax.addSecretVersion request =>
          Some request.(IAddSecretVersionRequest.payload).(ISecretPayload.data)
      | _ => None
      end
  end.

(** The decimal numeral of an integer. *)
Definition numeral (z : Z) : jsstring := lit (NilZero.string_of_int (Z.to_int z)).

(** *** Further vocabulary: what a function does with the client *)

(** The number of calls a run makes on the client. *)
Fixpoint calls_made {St A} (h : Handler St) (p : Async A) (st : St) : nat :=
  match p with
  | Return _ => O
  | Await client c k =>
      S match h _ client c st with
        | (Fulfilled r, st') => calls_made h (k r) st'
        | (Rejected _, _) => O
        end
  end.

(** Every call a function can issue is made on [client]. *)
Inductive CallsOn (client : Gax.SecretManagerServiceClient) {A}
  : Async A -> Prop :=
| CallsOn_Return (a : A) : CallsOn client (Return a)
| CallsOn_Await {R} (c : Gax.call R) (k : R -> Async A) :
    (forall r, CallsOn client (k r)) -> CallsOn client (Await client c k).

(** The resource a request addresses: its [name], or its [parent]. *)
Definition target {R} (c : Gax.call R) : jsstring :=
  match c with
  | Gax.listSecrets request => request.(IListSecretsRequest.parent)
  | Gax.listSecretVersions request => request.(IListSecretVersionsRequest.parent)
  | Gax.createSecret request => request.(ICreateSecretRequest.parent)
  | Gax.getSecret request => request.(IGetSecretRequest.name)
  | Gax.deleteSecret request => request.(IDeleteSecretRequest.name)
  | Gax.addSecretVersion request => request.(IAddSecretVersionRequest.parent)
  | Gax.accessSecretVersion request => request.(IAccessSecretVersionRequest.name)
  end.

(** The resource the first call of a function addresses. *)
Definition first_target {A} (p : Async A) : option jsstring :=
  match p with
  | Return _ => None
  | Await _ c _ => Some (target c)
  end.

(** A property of functions, asked of every operation of a handle,
    whatever its argument. *)
Definition member_forall (Q : forall A, Async A -> Prop) (k : Key.t)
  : Key.member k -> Prop :=
  match k with
  | Key.create => fun m => Q _ m
  | Key.get => fun m => Q _ m
  | Key.delete => fun m => Q _ m
  | Key.addVersion => fun m => forall secretContent, Q _ (m secretContent)
  | Key.access => fun m => forall version, Q _ (m version)
  | Key.accessOnlyLatest => fun m => Q _ m
  end.

Definition object_forall (Q : forall A, Async A -> Prop) (o : object) : Prop :=
  Forall (fun p => member_forall Q (projT1 p) (projT2 p)) o.

(** One request per operation, answered or not. *)
Definition one_call (A : Type) (p : Async A) : Prop :=
  forall St (h : Handler St) (st : St), calls_made h p st = 1%nat.

(** The operation settles as its one call settles: rejected with the
    client's error when the call is rejected, fulfilled when the call is
    fulfilled, and in both cases leaving the state the call left. *)
Definition settles_as_its_call (A : Type) (p : Async A) : Prop :=
  exists R client (c : Gax.call R),
    forall St (h : Handler St) (st : St),
      match h _ client c st with
      | (Rejected e, st') => run h p st = (Rejected e, st')
      | (Fulfilled _, st') => exists a, run h p st = (Fulfilled a, st')
      end.

(** A service that names a created secret [{parent}/secrets/{secretId}]:
    once [createSecret] is fulfilled, [getSecret] on that name is
    fulfilled with a descriptor carrying the name. *)
Definition registers_secrets {St} (h : Handler St) : Prop :=
  forall client client' request st created st',
    h _ client (Gax.createSecret request) st = (Fulfilled created, st') ->
    exists reply st'',
      h _ client'
        (Gax.getSecret
           {| IGetSecretRequest.name :=
                request.(ICreateSecretRequest.parent) ++ lit "/secrets/"
                  ++ request.(ICreateSecretRequest.secretId) |}) st'
      = (Fulfilled reply, st'') /\
      (response_of reply).(ISecret.name)
      = Just (request.(ICreateSecretRequest.parent) ++ lit "/secrets/"
                ++ request.(ICreateSecretRequest.secretId)).

(** A 16-bit code unit; an octet. *)
Definition is_code_unit (c : Z) : Prop := 0 <= c < 0x10000.
Definition is_octet (b : Z) : Prop := 0 <= b < 0x100.

(* ================================================================== *)
(** * Properties *)

(** ** The runtime fragment at work *)

Example lit_latest : lit "latest" = [108; 97; 116; 101; 115; 116].
Proof. reflexivity. Qed.

Example Number_toString_examples :
  Number_toString (Number_of_Z 0) = lit "0" /\
  Number_toString (Number_of_Z 42) = lit "42" /\
  Number_toString (Number_of_Z (-7)) = lit "-7" /\
  Number_toString (check (FFinite true 0 0)) = lit "0" /\
  Number_toString NaN = lit "NaN" /\
  Number_toString (check (FInfinity true)) = lit "-Infinity" /\
  Number_toString (Number_of_Q (3 # 2)) = lit "1.5" /\
  Number_toString (Number_of_Q (1 # 10)) = lit "0.1" /\
  Number_toString (Number_of_Q (1 # 10000000)) = lit "1e-7" /\
  Number_toString (Number_of_Z (2 ^ 53)) = lit "9007199254740992" /\
  Number_toString (Number_of_Z (2 ^ 53 + 1)) = lit "9007199254740992" /\
  Number_toString (Number_of_Z (2 ^ 60)) = lit "1152921504606847000" /\
  Number_toString (Number_of_Z (10 ^ 21)) = lit "1e+21" /\
  Number_toString (Number_of_Z (2 ^ 70)) = lit "1.1805916207174113e+21".
Proof. repeat split; vm_compute; reflexivity. Qed.

(** The integers below [2^53] go through the search as through the short
    cut. *)
Example shortest_rendering_of_integers :
  map (fun z => shortest_rendering z 0)
    [1; 7; 10; 42; 100; 1024; 65535; 123456789; 9007199254740991]
  = map digits_of
      [1; 7; 10; 42; 100; 1024; 65535; 123456789; 9007199254740991].
Proof. vm_compute. reflexivity. Qed.

Example utf8_examples :
  Buffer_from_utf8 (lit "hello") = [104; 101; 108; 108; 111] /\
  Buffer_from_utf8 [0xE9] = [0xC3; 0xA9] /\
  Buffer_from_utf8 [0x20AC] = [0xE2; 0x82; 0xAC] /\
  Buffer_from_utf8 [0xD83D; 0xDE00] = [0xF0; 0x9F; 0x98; 0x80] /\
  Buffer_from_utf8 [0xD800] = [0xEF; 0xBF; 0xBD] /\
  Buffer_toString [0xF0; 0x9F; 0x98; 0x80] = [0xD83D; 0xDE00] /\
  Buffer_toString [0xEF; 0xBF; 0xBD] = [0xFFFD] /\
  Buffer_toString [0xC3] = [0xFFFD] /\
  Buffer_toString [0xE2; 0x82; 0x41] = [0xFFFD; 0x41].
Proof. repeat split. Qed.

(** *** [Number.prototype.toString] *)

Lemma float_check (x : float64) : is_float64 x = true -> float (check x) = x.
Proof.
  intros H. unfold check.
  destruct (bool_dec (is_float64 x) true) as [ok | no]; [reflexivity |].
  contradiction.
Qed.

(** Spells the string literals of a goal out. *)
Ltac spell :=
  repeat match goal with
  | |- context [lit ?s] =>
      let units := eval vm_compute in (lit s) in
      change (lit s) with units
  end.

(** A numeral starts with a digit. *)
Lemma digits_of_head (s : Z) :
  exists d ds, digits_of s = d :: ds /\ 48 <= d <= 57.
Proof.
  unfold digits_of.
  destruct (N.to_uint (Z.to_N s)); cbn;
    eexists; eexists; (split; [reflexivity | lia]).
Qed.

Lemma format_head (k n s : Z) :
  exists c cs, format k n s = c :: cs /\ 48 <= c <= 57.
Proof.
  unfold format.
  destruct (digits_of_head s) as (d & ds & -> & Hd).
  destruct ((k <=? n) && (n <=? 21)).
  { eexists; eexists; (split; [reflexivity | exact Hd]). }
  destruct ((0 <? n) && (n <=? 21)).
  { eexists; eexists; (split; [reflexivity | exact Hd]). }
  destruct ((-6 <? n) && (n <=? 0)).
  { spell. eexists; eexists; (split; [reflexivity | lia]). }
  eexists; eexists; (split; [reflexivity | exact Hd]).
Qed.

Lemma toString_positive_head (m e : Z) :
  exists c cs, toString_positive m e = c :: cs /\ 48 <= c <= 57.
Proof.
  unfold toString_positive, shortest_rendering.
  destruct (shortest (magnitude m e)) as [[k n] s].
  destruct (as_integer m e) as [z |];
    [destruct (z <? 2 ^ 53) |];
    first [apply digits_of_head | apply format_head].
Qed.

(** The rendering of a number starts with a digit, with the sign, or with
    the [N] of [NaN] or the [I] of [Infinity]: it is never the empty
    string, and it never starts with a small letter. *)
Lemma Number_toString_head (v : number) :
  exists c s,
    Number_toString v = c :: s /\
    (c = 45 \/ 48 <= c <= 57 \/ c = 73 \/ c = 78).
Proof.
  unfold Number_toString.
  destruct (float v) as [| [|] | negative m e].
  - spell. eexists; eexists; (split; [reflexivity | lia]).
  - spell. eexists; eexists; (split; [reflexivity | lia]).
  - spell. eexists; eexists; (split; [reflexivity | lia]).
  - destruct (m =? 0).
    + spell. eexists; eexists; (split; [reflexivity | lia]).
    + destruct (toString_positive_head m e) as (c & cs & -> & Hc).
      destruct negative; spell;
        eexists; eexists; (split; [reflexivity | lia]).
Qed.

Lemma Number_toString_truthy (v : number) (fallback : jsstring) :
  logical_or (Just (Number_toString v)) fallback = Number_toString v.
Proof.
  destruct (Number_toString_head v) as (c & s & -> & _). reflexivity.
Qed.

Lemma Number_toString_not_latest (v : number) :
  Number_toString v <> lit "latest".
Proof.
  destruct (Number_toString_head v) as (c & s & -> & Hc).
  cbn. intros [= -> _]. lia.
Qed.

Lemma Number_toString_nonempty (v : number) : Number_toString v <> [].
Proof.
  destruct (Number_toString_head v) as (c & s & -> & _). discriminate.
Qed.

(** The decimal numeral of an integer, as the Standard Library writes
    it. *)
Lemma numeral_reads_back (z : Z) :
  option_map Z.of_int
    (NilZero.int_of_string (NilZero.string_of_int (Z.to_int z))) = Some z.
Proof.
  rewrite NilZero.isi.
  - cbn. f_equal. apply DecimalZ.of_to.
  - destruct z; cbn; try discriminate.
    intros [= H]. revert H. apply DecimalPos.Unsigned.to_uint_nonnil.
  - destruct z; cbn; try discriminate.
    intros [= H]. revert H. apply DecimalPos.Unsigned.to_uint_nonnil.
Qed.

(** An integer below [2^53] in magnitude is rendered by its decimal
    numeral. *)
Lemma Number_toString_integer (z : Z) :
  Z.abs z < 2 ^ 53 ->
  Number_toString (Number_of_Z z) = lit (NilZero.string_of_int (Z.to_int z)).
Proof.
  intros Hz. unfold Number_of_Z.
  destruct (Z.ltb_spec (Z.abs z) (2 ^ 53)) as [_ | Hge]; [| lia].
  unfold Number_toString. rewrite float_check.
  2:{ cbn [is_float64]. rewrite !andb_true_iff, !Z.leb_le, Z.ltb_lt. lia. }
  destruct z as [| p | p]; [reflexivity | |].
  - cbn [Z.abs Z.eqb Z.ltb Z.compare app].
    unfold toString_positive, as_integer. cbn [Z.leb Z.compare].
    rewrite Z.pow_0_r, Z.mul_1_r.
    destruct (Z.ltb_spec (Z.pos p) (2 ^ 53)) as [_ | Hge]; [| cbn in Hz; lia].
    reflexivity.
  - cbn [Z.abs Z.eqb Z.ltb Z.compare].
    unfold toString_positive, as_integer. cbn [Z.leb Z.compare].
    rewrite Z.pow_0_r, Z.mul_1_r.
    destruct (Z.ltb_spec (Z.pos p) (2 ^ 53)) as [_ | Hge]; [| cbn in Hz; lia].
    reflexivity.
Qed.

(** *** UTF-8 *)

Section Bits.

(** Masks, shifts and disjoint unions as arithmetic. *)

Lemma land_ones_mod (x n : Z) : 0 <= n -> Z.land x (Z.ones n) = x mod 2 ^ n.
Proof. apply Z.land_ones. Qed.

Lemma lor_disjoint (a b n : Z) :
  0 <= n -> a mod 2 ^ n = 0 -> 0 <= b < 2 ^ n -> Z.lor a b = a + b.
Proof.
  intros Hn Ha Hb. rewrite <- (Z.add_lor_land a b).
  enough (Z.land a b = 0) as -> by lia.
  apply Z.bits_inj'. intros i Hi.
  rewrite Z.land_spec, Z.bits_0.
  destruct (Z.lt_ge_cases i n) as [Hlt | Hge].
  - rewrite <- (Z.mod_pow2_bits_low a n i) by lia.
    rewrite Ha, Z.bits_0. reflexivity.
  - rewrite <- (Z.mod_small b (2 ^ n)) by lia.
    rewrite Z.mod_pow2_bits_high by lia. apply andb_false_r.
Qed.

Lemma land_0x3F x : Z.land x 0x3F = x mod 64.
Proof. apply (land_ones_mod x 6). lia. Qed.
Lemma land_0x1F x : Z.land x 0x1F = x mod 32.
Proof. apply (land_ones_mod x 5). lia. Qed.
Lemma land_0x0F x : Z.land x 0x0F = x mod 16.
Proof. apply (land_ones_mod x 4). lia. Qed.
Lemma land_0x07 x : Z.land x 0x07 = x mod 8.
Proof. apply (land_ones_mod x 3). lia. Qed.
Lemma land_0x3FF x : Z.land x 0x3FF = x mod 1024.
Proof. apply (land_ones_mod x 10). lia. Qed.

Lemma shiftr_6 x : Z.shiftr x 6 = x / 64.
Proof. apply (Z.shiftr_div_pow2 x 6). lia. Qed.
Lemma shiftr_10 x : Z.shiftr x 10 = x / 1024.
Proof. apply (Z.shiftr_div_pow2 x 10). lia. Qed.
Lemma shiftr_12 x : Z.shiftr x 12 = x / 4096.
Proof. apply (Z.shiftr_div_pow2 x 12). lia. Qed.
Lemma shiftr_18 x : Z.shiftr x 18 = x / 262144.
Proof. apply (Z.shiftr_div_pow2 x 18). lia. Qed.
Lemma shiftl_6 x : Z.shiftl x 6 = x * 64.
Proof. apply (Z.shiftl_mul_pow2 x 6). lia. Qed.
Lemma shiftl_10 x : Z.shiftl x 10 = x * 1024.
Proof. apply (Z.shiftl_mul_pow2 x 10). lia. Qed.

Lemma lor_0x80 x : 0 <= x < 64 -> Z.lor 0x80 x = 0x80 + x.
Proof. intros H. apply (lor_disjoint 0x80 x 6); [lia | reflexivity | exact H]. Qed.
Lemma lor_0xC0 x : 0 <= x < 32 -> Z.lor 0xC0 x = 0xC0 + x.
Proof. intros H. apply (lor_disjoint 0xC0 x 5); [lia | reflexivity | exact H]. Qed.
Lemma lor_0xE0 x : 0 <= x < 16 -> Z.lor 0xE0 x = 0xE0 + x.
Proof. intros H. apply (lor_disjoint 0xE0 x 4); [lia | reflexivity | exact H]. Qed.
Lemma lor_0xF0 x : 0 <= x < 8 -> Z.lor 0xF0 x = 0xF0 + x.
Proof. intros H. apply (lor_disjoint 0xF0 x 3); [lia | reflexivity | exact H]. Qed.
Lemma lor_shifted x r : 0 <= r < 64 -> Z.lor (x * 64) r = x * 64 + r.
Proof.
  intros H. apply (lor_disjoint (x * 64) r 6); [lia | | exact H].
  apply Z.mod_mul. discriminate.
Qed.

End Bits.

Ltac arith := Z.to_euclidean_division_equations; lia.

Ltac to_arith :=
  rewrite ?land_0x3F, ?land_0x1F, ?land_0x0F, ?land_0x07, ?land_0x3FF,
    ?shiftr_6, ?shiftr_10, ?shiftr_12, ?shiftr_18, ?shiftl_6, ?shiftl_10.

Lemma octets_1 cp : 0 <= cp < 0x80 -> utf8_octets cp = [cp].
Proof. intros H. unfold utf8_octets. destruct (Z.ltb_spec cp 0x80); [reflexivity | lia]. Qed.

Lemma octets_2 cp : 0x80 <= cp < 0x800 ->
  utf8_octets cp = [0xC0 + cp / 64; 0x80 + cp mod 64].
Proof.
  intros H. unfold utf8_octets.
  destruct (Z.ltb_spec cp 0x80); [lia |].
  destruct (Z.ltb_spec cp 0x800); [| lia].
  to_arith. rewrite lor_0xC0, lor_0x80 by arith. reflexivity.
Qed.

Lemma octets_3 cp : 0x800 <= cp < 0x10000 ->
  utf8_octets cp = [0xE0 + cp / 4096; 0x80 + (cp / 64) mod 64; 0x80 + cp mod 64].
Proof.
  intros H. unfold utf8_octets.
  destruct (Z.ltb_spec cp 0x80); [lia |].
  destruct (Z.ltb_spec cp 0x800); [lia |].
  destruct (Z.ltb_spec cp 0x10000); [| lia].
  to_arith. rewrite lor_0xE0, !lor_0x80 by arith. reflexivity.
Qed.

Lemma octets_4 cp : 0x10000 <= cp < 0x110000 ->
  utf8_octets cp = [0xF0 + cp / 262144; 0x80 + (cp / 4096) mod 64;
                    0x80 + (cp / 64) mod 64; 0x80 + cp mod 64].
Proof.
  intros H. unfold utf8_octets.
  destruct (Z.ltb_spec cp 0x80); [lia |].
  destruct (Z.ltb_spec cp 0x800); [lia |].
  destruct (Z.ltb_spec cp 0x10000); [lia |].
  to_arith. rewrite lor_0xF0, !lor_0x80 by arith. reflexivity.
Qed.

Ltac decide_tests :=
  repeat match goal with
  | |- context [Z.leb ?a ?b] => destruct (Z.leb_spec a b); try arith
  | |- context [Z.ltb ?a ?b] => destruct (Z.ltb_spec a b); try arith
  | |- context [Z.eqb ?a ?b] => destruct (Z.eqb_spec a b); try arith
  end.

Lemma lead_1 b : 0 <= b <= 0x7F -> utf8_lead b = (Idle, [b]).
Proof. intros H. unfold utf8_lead, in_range. decide_tests. reflexivity. Qed.

Lemma lead_2 b : 0xC2 <= b <= 0xDF ->
  utf8_lead b = (Pending (b mod 32) 0 0x80 0xBF, []).
Proof.
  intros H. unfold utf8_lead, in_range. to_arith.
  decide_tests; reflexivity.
Qed.

Lemma lead_3 b : 0xE0 <= b <= 0xEF ->
  utf8_lead b =
  (Pending (b mod 16) 1 (if b =? 0xE0 then 0xA0 else 0x80)
     (if b =? 0xED then 0x9F else 0xBF), []).
Proof.
  intros H. unfold utf8_lead, in_range. to_arith.
  destruct (Z.leb_spec 0 b); [| lia].
  destruct (Z.leb_spec b 0x7F); [lia |].
  destruct (Z.leb_spec 0xC2 b); [| lia].
  destruct (Z.leb_spec b 0xDF); [lia |].
  destruct (Z.leb_spec 0xE0 b); [| lia].
  destruct (Z.leb_spec b 0xEF); [| lia].
  reflexivity.
Qed.

Lemma lead_4 b : 0xF0 <= b <= 0xF4 ->
  utf8_lead b =
  (Pending (b mod 8) 2 (if b =? 0xF0 then 0x90 else 0x80)
     (if b =? 0xF4 then 0x8F else 0xBF), []).
Proof.
  intros H. unfold utf8_lead, in_range. to_arith.
  destruct (Z.leb_spec 0 b); [| lia].
  destruct (Z.leb_spec b 0x7F); [lia |].
  destruct (Z.leb_spec 0xC2 b); [| lia].
  destruct (Z.leb_spec b 0xDF); [lia |].
  destruct (Z.leb_spec 0xE0 b); [| lia].
  destruct (Z.leb_spec b 0xEF); [lia |].
  destruct (Z.leb_spec 0xF0 b); [| lia].
  destruct (Z.leb_spec b 0xF4); [| lia].
  reflexivity.
Qed.

Lemma step_continue cp due lower upper b :
  lower <= b <= upper ->
  utf8_step (Pending cp due lower upper) b =
  match due with
  | O => (Idle, utf16_units (cp * 64 + b mod 64))
  | S due' => (Pending (cp * 64 + b mod 64) due' 0x80 0xBF, [])
  end.
Proof.
  intros H. unfold utf8_step, in_range.
  destruct (Z.leb_spec lower b); [| lia].
  destruct (Z.leb_spec b upper); [| lia].
  to_arith. rewrite lor_shifted by arith. reflexivity.
Qed.

Definition is_scalar (cp : Z) : Prop :=
  0 <= cp < 0xD800 \/ 0xE000 <= cp < 0x110000.

Lemma decode_octets cp rest :
  is_scalar cp ->
  utf8_decode Idle (utf8_octets cp ++ rest) =
  utf16_units cp ++ utf8_decode Idle rest.
Proof.
  intros Hcp.
  assert (cp < 0x80 \/ 0x80 <= cp < 0x800 \/ 0x800 <= cp < 0x10000
          \/ 0x10000 <= cp) as [H1 | [H2 | [H3 | H4]]] by lia.
  - rewrite octets_1 by (unfold is_scalar in Hcp; lia).
    cbn [app utf8_decode utf8_step].
    rewrite lead_1 by (unfold is_scalar in Hcp; lia).
    unfold utf16_units. destruct (Z.ltb_spec cp 0x10000); [reflexivity | lia].
  - rewrite octets_2 by lia.
    cbn [app utf8_decode utf8_step].
    rewrite lead_2 by arith. cbn [app].
    rewrite step_continue by arith.
    replace (_ * 64 + _) with cp by arith. reflexivity.
  - rewrite octets_3 by lia.
    cbn [app utf8_decode utf8_step].
    rewrite lead_3 by arith. cbn [app].
    rewrite step_continue.
    2:{ unfold is_scalar in Hcp. decide_tests. }
    cbn [app utf8_decode].
    rewrite step_continue by arith.
    replace (_ * 64 + _) with cp by arith. reflexivity.
  - assert (cp < 0x110000) by (unfold is_scalar in Hcp; lia).
    rewrite octets_4 by lia.
    cbn [app utf8_decode utf8_step].
    rewrite lead_4 by arith. cbn [app].
    rewrite step_continue.
    2:{ decide_tests. }
    cbn [app utf8_decode].
    rewrite step_continue by arith.
    cbn [app utf8_decode].
    rewrite step_continue by arith.
    replace (_ * 64 + _) with cp by arith. reflexivity.
Qed.

Lemma surrogate_pair_scalar hi lo :
  is_high_surrogate hi = true -> is_low_surrogate lo = true ->
  0x10000 <= surrogate_pair hi lo < 0x110000.
Proof.
  unfold is_high_surrogate, is_low_surrogate, surrogate_pair.
  rewrite !andb_true_iff, !Z.leb_le. intros [? ?] [? ?].
  to_arith. lia.
Qed.

Lemma utf16_units_pair hi lo :
  is_high_surrogate hi = true -> is_low_surrogate lo = true ->
  utf16_units (surrogate_pair hi lo) = [hi; lo].
Proof.
  intros Hhi Hlo. pose proof (surrogate_pair_scalar hi lo Hhi Hlo) as Hcp.
  unfold utf16_units. destruct (Z.ltb_spec (surrogate_pair hi lo) 0x10000); [lia |].
  revert Hhi Hlo Hcp. unfold is_high_surrogate, is_low_surrogate, surrogate_pair.
  rewrite !andb_true_iff, !Z.leb_le. intros [? ?] [? ?] _.
  to_arith. f_equal; [| f_equal]; arith.
Qed.

Lemma roundtrip_bounded (n : nat) : forall s : jsstring,
  (List.length s <= n)%nat -> isWellFormed s = true ->
  Buffer_toString (Buffer_from_utf8 s) = s.
Proof.
  unfold Buffer_toString.
  induction n as [| n IH]; intros [| c rest] Hlen Hwf; try reflexivity.
  - simpl in Hlen. lia.
  - simpl in Hlen. cbn [isWellFormed Buffer_from_utf8] in *.
    destruct (is_high_surrogate c) eqn:Hhi.
    + destruct rest as [| d rest']; [discriminate |].
      apply andb_true_iff in Hwf as [Hlo Hwf]. rewrite Hlo.
      rewrite decode_octets.
      * rewrite utf16_units_pair by assumption. cbn [app].
        rewrite IH; [reflexivity | simpl in Hlen; lia | assumption].
      * pose proof (surrogate_pair_scalar c d Hhi Hlo). right. lia.
    + rewrite !andb_true_iff in Hwf. destruct Hwf as [[[Hlo H0] H1] Hwf].
      apply negb_true_iff in Hlo. rewrite Hlo.
      rewrite decode_octets.
      * unfold utf16_units. rewrite H1. cbn [app].
        rewrite IH; [reflexivity | lia | assumption].
      * revert Hhi Hlo H0 H1. unfold is_high_surrogate, is_low_surrogate, is_scalar.
        rewrite !andb_false_iff, !Z.leb_gt, Z.leb_le, Z.ltb_lt. lia.
Qed.

Lemma utf8_roundtrip (s : jsstring) :
  isWellFormed s = true -> Buffer_toString (Buffer_from_utf8 s) = s.
Proof. apply (roundtrip_bounded (List.length s)). reflexivity. Qed.

(** *** The encoder and the decoder against the tables of the Standard *)

Lemma is_scalar_value_spec (cp : Z) : is_scalar_value cp = true <-> is_scalar cp.
Proof.
  unfold is_scalar_value, is_scalar.
  rewrite orb_true_iff, !andb_true_iff, !Z.leb_le, !Z.ltb_lt. tauto.
Qed.

Lemma octets_of_scalar (cp : Z) :
  is_scalar cp -> utf8_octets cp = utf8_of_scalar cp.
Proof.
  intros Hcp. unfold utf8_of_scalar. unfold is_scalar in Hcp.
  destruct (Z.ltb_spec cp 0x80); [apply octets_1; lia |].
  destruct (Z.ltb_spec cp 0x800); [apply octets_2; lia |].
  destruct (Z.ltb_spec cp 0x10000); [apply octets_3; lia |].
  apply octets_4; lia.
Qed.

Lemma units_of_scalar (cp : Z) : utf16_units cp = utf16_of_scalar cp.
Proof. unfold utf16_units, utf16_of_scalar. to_arith. reflexivity. Qed.

(** Decoding the UTF-8 form of a text gives its UTF-16 form. *)
Lemma decode_UTF8 (text : list Z) :
  is_text text = true -> Buffer_toString (UTF8 text) = UTF16 text.
Proof.
  unfold Buffer_toString, is_text.
  induction text as [| cp text IH]; [reflexivity |].
  cbn [forallb UTF8 UTF16 flat_map]. intros H.
  apply andb_true_iff in H as [Hcp Htext].
  apply is_scalar_value_spec in Hcp.
  rewrite <- octets_of_scalar, decode_octets, units_of_scalar by assumption.
  f_equal. apply IH, Htext.
Qed.

(** Encoding the UTF-16 form of a text gives its UTF-8 form. *)
Lemma encode_UTF16 (text : list Z) :
  is_text text = true -> Buffer_from_utf8 (UTF16 text) = UTF8 text.
Proof.
  unfold is_text.
  induction text as [| cp text IH]; [reflexivity |].
  cbn [forallb UTF8 UTF16 flat_map]. intros H.
  apply andb_true_iff in H as [Hcp Htext].
  apply is_scalar_value_spec in Hcp.
  fold (UTF8 text) (UTF16 text).
  rewrite <- (octets_of_scalar cp Hcp), <- (IH Htext).
  unfold utf16_of_scalar. unfold is_scalar in Hcp.
  destruct (Z.ltb_spec cp 0x10000) as [Hbmp | Hsup]; cbn [app Buffer_from_utf8].
  - replace (is_high_surrogate cp) with false
      by (symmetry; unfold is_high_surrogate;
          rewrite andb_false_iff, !Z.leb_gt; lia).
    replace (is_low_surrogate cp) with false
      by (symmetry; unfold is_low_surrogate;
          rewrite andb_false_iff, !Z.leb_gt; lia).
    reflexivity.
  - replace (is_high_surrogate (0xD800 + (cp - 0x10000) / 1024)) with true
      by (symmetry; unfold is_high_surrogate;
          rewrite andb_true_iff, !Z.leb_le; arith).
    replace (is_low_surrogate (0xDC00 + (cp - 0x10000) mod 1024)) with true
      by (symmetry; unfold is_low_surrogate;
          rewrite andb_true_iff, !Z.leb_le; arith).
    replace (surrogate_pair (0xD800 + (cp - 0x10000) / 1024)
               (0xDC00 + (cp - 0x10000) mod 1024)) with cp
      by (unfold surrogate_pair; to_arith; arith).
    reflexivity.
Qed.

(** A string without a lone surrogate is the UTF-16 form of a text. *)
Lemma wellformed_bounded (n : nat) : forall s : jsstring,
  (List.length s <= n)%nat -> isWellFormed s = true ->
  exists text, is_text text = true /\ UTF16 text = s.
Proof.
  induction n as [| n IH]; intros [| c rest] Hlen Hwf;
    try (exists []; split; reflexivity).
  - cbn in Hlen. lia.
  - cbn [List.length] in Hlen. cbn [isWellFormed] in Hwf.
    destruct (is_high_surrogate c) eqn:Hhi.
    + destruct rest as [| d rest']; [discriminate |].
      apply andb_true_iff in Hwf as [Hlo Hwf].
      cbn [List.length] in Hlen.
      destruct (IH rest' ltac:(lia) Hwf) as (text & Htext & <-).
      pose proof (surrogate_pair_scalar c d Hhi Hlo) as Hcp.
      exists (surrogate_pair c d :: text). split.
      * cbn [is_text forallb]. apply andb_true_iff. split; [| exact Htext].
        apply is_scalar_value_spec. right. lia.
      * cbn [UTF16 flat_map].
        rewrite <- units_of_scalar, utf16_units_pair by assumption.
        reflexivity.
    + rewrite !andb_true_iff in Hwf. destruct Hwf as [[[Hlo H0] H1] Hwf].
      destruct (IH rest ltac:(lia) Hwf) as (text & Htext & <-).
      exists (c :: text). split.
      * cbn [is_text forallb]. apply andb_true_iff. split; [| exact Htext].
        apply is_scalar_value_spec.
        apply negb_true_iff in Hlo. revert Hhi Hlo H0 H1.
        unfold is_high_surrogate, is_low_surrogate, is_scalar.
        rewrite !andb_false_iff, !Z.leb_gt, Z.leb_le, Z.ltb_lt. lia.
      * cbn [UTF16 flat_map]. unfold utf16_of_scalar. rewrite H1. reflexivity.
Qed.

Lemma wellformed_is_text (s : jsstring) :
  isWellFormed s = true -> exists text, is_text text = true /\ UTF16 text = s.
Proof. apply (wellformed_bounded (List.length s)). reflexivity. Qed.

(* ================================================================== *)
(** ** The functions of [index.ts] and [output/index.js]

    Each function is a single round trip: one call on the client it was
    given, and a result read off what the call settled to. *)

Ltac single_call :=
  eexists; split; [reflexivity |];
  first [ intros [[? ?] ?]; reflexivity | intros ?; reflexivity ].

Lemma run_round_trip {St A R} (h : Handler St) (p : Async A) client
  (c : Gax.call R) (result : R -> A) (st : St) :
  round_trip p client c result ->
  run h p st =
  match h _ client c st with
  | (Fulfilled r, st') => (Fulfilled (result r), st')
  | (Rejected e, st') => (Rejected e, st')
  end.
Proof.
  intros (k & -> & Hk). cbn [run].
  destruct (h R client c st) as [[r | e] st']; [| reflexivity].
  rewrite Hk. reflexivity.
Qed.

Lemma EveryCall_round_trip {A R} (P : forall R, Gax.call R -> Prop)
  (p : Async A) client (c : Gax.call R) (result : R -> A) :
  round_trip p client c result -> P R c -> EveryCall P p.
Proof.
  intros (k & -> & Hk) Hc. constructor; [exact Hc |].
  intros r. rewrite Hk. constructor.
Qed.

(** The optional chain of [access] reads the payload the way the spec
    words it. *)
Lemma accessed_payload_chain (accessResponse : nullable IAccessSecretVersionResponse.t) :
  nullish
    (opt_chain
       (opt_chain
          (opt_chain accessResponse IAccessSecretVersionResponse.payload)
          ISecretPayload.data)
       (fun data => Just (Buffer_toString data)))
    Null
  = accessed_payload accessResponse.
Proof.
  unfold accessed_payload, carried_data.
  destruct accessResponse as [| | [name [| | [[| | bytes]]]]]; reflexivity.
Qed.

Lemma version_resource_latest (parent secretId : jsstring) :
  version_resource parent secretId (lit "latest") =
  secret_resource parent secretId ++ lit "/versions/latest".
Proof.
  unfold version_resource, secret_resource.
  rewrite <- !app_assoc. reflexivity.
Qed.

Lemma TS_listSecrets_round_trip (i : baseInput) :
  round_trip (TS.listSecrets i) i.(client)
    (Gax.listSecrets {| IListSecretsRequest.parent := i.(parent) |})
    response_of.
Proof. single_call. Qed.

Lemma TS_versions_round_trip (i : baseInput) :
  round_trip (TS.versions i) i.(client)
    (Gax.listSecretVersions {| IListSecretVersionsRequest.parent := i.(parent) |})
    response_of.
Proof. single_call. Qed.

Lemma TS_createSecret_round_trip (i : requiredInput) :
  round_trip (TS.createSecret i) i.(client)
    (Gax.createSecret
       {| ICreateSecretRequest.parent := i.(parent);
          ICreateSecretRequest.secretId := i.(secretId);
          ICreateSecretRequest.secret :=
            {| ISecret.name := Undefined;
               ISecret.replication := Just automatic_replication |} |})
    response_of.
Proof. single_call. Qed.

Lemma TS_getSecret_round_trip (i : requiredInput) :
  round_trip (TS.getSecret i) i.(client)
    (Gax.getSecret
       {| IGetSecretRequest.name := secret_resource i.(parent) i.(secretId) |})
    response_of.
Proof. single_call. Qed.

Lemma TS_deleteSecret_round_trip (i : requiredInput) :
  round_trip (TS.deleteSecret i) i.(client)
    (Gax.deleteSecret
       {| IDeleteSecretRequest.name := secret_resource i.(parent) i.(secretId) |})
    (fun reply => reply).
Proof. single_call. Qed.

Lemma TS_addNewVersion_round_trip (i : contentInput) :
  round_trip (TS.addNewVersion i) i.(client)
    (Gax.addSecretVersion
       {| IAddSecretVersionRequest.parent :=
            secret_resource i.(parent) i.(secretId);
          IAddSecretVersionRequest.payload :=
            {| ISecretPayload.data :=
                 Just (Buffer_from_utf8 i.(secretContent)) |} |})
    response_of.
Proof. single_call. Qed.

Lemma TS_access_round_trip (i : versionInput) :
  round_trip (TS.access i) i.(client)
    (Gax.accessSecretVersion
       {| IAccessSecretVersionRequest.name :=
            version_resource i.(parent) i.(secretId) i.(secretVersion) |})
    (fun reply => accessed_payload (response_of reply)).
Proof.
  eexists. split; [reflexivity |].
  intros [[accessResponse request] raw]. cbn.
  rewrite accessed_payload_chain. reflexivity.
Qed.

Lemma TS_accessOnlyLatest_round_trip (i : requiredInput) :
  round_trip (TS.accessOnlyLatest i) i.(client)
    (Gax.accessSecretVersion
       {| IAccessSecretVersionRequest.name :=
            version_resource i.(parent) i.(secretId) (lit "latest") |})
    (fun reply => accessed_payload (response_of reply)).
Proof.
  eexists. split; [reflexivity |].
  intros [[accessResponse request] raw]. cbn.
  rewrite accessed_payload_chain. reflexivity.
Qed.

Lemma Output_access_round_trip (i : versionInput) :
  round_trip (Output.access i) i.(client)
    (Gax.accessSecretVersion
       {| IAccessSecretVersionRequest.name :=
            version_resource i.(parent) i.(secretId) i.(secretVersion) |})
    (fun reply => accessed_payload (response_of reply)).
Proof.
  eexists. split; [reflexivity |].
  intros [[accessResponse request] raw]. cbn.
  rewrite accessed_payload_chain. reflexivity.
Qed.


(* ================================================================== *)
(** ** The secret handle *)

Section Handle.

Variable input : requiredInput.

(** What each property of the handle holds. *)

Lemma TS_create :
  lookup Key.create (TS.makeSecrets input) = Some (TS.createSecret (secretInput input)).
Proof. reflexivity. Qed.

Lemma TS_get :
  lookup Key.get (TS.makeSecrets input) = Some (TS.getSecret (secretInput input)).
Proof. reflexivity. Qed.

Lemma TS_delete :
  lookup Key.delete (TS.makeSecrets input) = Some (TS.deleteSecret (secretInput input)).
Proof. reflexivity. Qed.

Lemma TS_addVersion :
  lookup Key.addVersion (TS.makeSecrets input) =
  Some (fun secretContent =>
          TS.addNewVersion
            {| content_required := secretInput input;
               secretContent := secretContent |}).
Proof. reflexivity. Qed.

Lemma TS_access :
  lookup Key.access (TS.makeSecrets input) =
  Some (fun version => TS.access (resolved input version)).
Proof. reflexivity. Qed.

Lemma TS_accessOnlyLatest :
  lookup Key.accessOnlyLatest (TS.makeSecrets input) =
  Some (TS.accessOnlyLatest (secretInput input)).
Proof. reflexivity. Qed.

Lemma Output_access :
  lookup Key.access (Output.makeSecrets input) =
  Some (fun version => Output.access (resolved input version)).
Proof. reflexivity. Qed.

(** C1: called without a version, [access] resolves the version to the
    string ["latest"] and only then builds the resource name: it calls
    [accessSecretVersion] once, for
    [{parent}/secrets/{secretId}/versions/latest]. *)
Theorem C1_access_without_version_reads_latest :
  exists access : nullable number -> Async (nullable jsstring),
    lookup Key.access (TS.makeSecrets input) = Some access /\
    access Undefined =
      TS.access
        {| version_required := secretInput input;
           secretVersion := lit "latest" |} /\
    round_trip (access Undefined) input.(client)
      (Gax.accessSecretVersion
         {| IAccessSecretVersionRequest.name :=
              input.(parent) ++ lit "/secrets/" ++ input.(secretId)
                ++ lit "/versions/latest" |})
      (fun reply => accessed_payload (response_of reply)).
Proof.
  eexists. split; [apply TS_access |]. split; [reflexivity |].
  apply (TS_access_round_trip (resolved input Undefined)).
Qed.

(** C2: [accessOnlyLatest()] is [access()] without an argument: the same
    single request for [{parent}/secrets/{secretId}/versions/latest], and,
    against any client in any state, the same result and the same state
    afterwards. *)
Theorem C2_accessOnlyLatest_is_access_without_version :
  exists (access : nullable number -> Async (nullable jsstring))
         (accessOnlyLatest : Async (nullable jsstring)),
    lookup Key.access (TS.makeSecrets input) = Some access /\
    lookup Key.accessOnlyLatest (TS.makeSecrets input) = Some accessOnlyLatest /\
    accessOnlyLatest = access Undefined /\
    round_trip accessOnlyLatest input.(client)
      (Gax.accessSecretVersion
         {| IAccessSecretVersionRequest.name :=
              input.(parent) ++ lit "/secrets/" ++ input.(secretId)
                ++ lit "/versions/latest" |})
      (fun reply => accessed_payload (response_of reply)) /\
    forall St (h : Handler St) (st : St),
      run h accessOnlyLatest st = run h (access Undefined) st.
Proof.
  eexists. eexists. split; [apply TS_access |].
  split; [apply TS_accessOnlyLatest |].
  split; [reflexivity |]. split; [| reflexivity].
  apply (TS_accessOnlyLatest_round_trip (secretInput input)).
Qed.

(** C3: [delete()] does not settle to the acknowledgment: it settles to
    exactly what [client.deleteSecret] settles to, the whole array
    [[acknowledgment, request, raw]], which is neither the [IEmpty] object
    in its first place nor [undefined].  ([get], [create] and [addVersion]
    take the first element; [deleteSecret] returns the call itself.) *)
Theorem C3_delete_settles_to_the_whole_reply :
  exists delete : Async (Gax.Reply IEmpty.t IDeleteSecretRequest.t),
    lookup Key.delete (TS.makeSecrets input) = Some delete /\
    forall St (h : Handler St) (st : St),
      run h delete st =
        h _ input.(client)
          (Gax.deleteSecret
             {| IDeleteSecretRequest.name :=
                  input.(parent) ++ lit "/secrets/" ++ input.(secretId) |})
          st /\
      match run h delete st with
      | (Fulfilled reply, _) =>
          (exists acknowledgment request raw,
             reify reply = VArray [acknowledgment; request; raw]) /\
          reify reply <> reify (response_of reply) /\
          reify reply <> VUndefined
      | (Rejected _, _) => True
      end.
Proof.
  eexists. split; [apply TS_delete |].
  intros St h st.
  assert (run h (TS.deleteSecret (secretInput input)) st =
          h _ input.(client)
            (Gax.deleteSecret
               {| IDeleteSecretRequest.name :=
                    input.(parent) ++ lit "/secrets/" ++ input.(secretId) |})
            st) as Hrun.
  { rewrite (run_round_trip h _ _ _ _ st
               (TS_deleteSecret_round_trip (secretInput input))).
    cbn. destruct (h _ _ _ st) as [[reply | e] st']; reflexivity. }
  split; [exact Hrun |].
  rewrite Hrun.
  destruct (h _ _ _ st) as [[[[acknowledgment request] raw] | e] st']; [| exact I].
  split; [| split].
  - do 3 eexists. reflexivity.
  - discriminate.
  - discriminate.
Qed.

(** C4: [get] and [delete] name [{parent}/secrets/{secretId}],
    [addVersion] names it as the parent of the new version, and
    [access(v)] names [{parent}/secrets/{secretId}/versions/{v}], [v]
    being the rendering of the number given (for an integer below [2^53]
    in magnitude, its decimal numeral), or ["latest"] when none is. *)
Theorem C4_operations_target_the_named_resources :
  exists get delete addVersion access,
    lookup Key.get (TS.makeSecrets input) = Some get /\
    lookup Key.delete (TS.makeSecrets input) = Some delete /\
    lookup Key.addVersion (TS.makeSecrets input) = Some addVersion /\
    lookup Key.access (TS.makeSecrets input) = Some access /\
    round_trip get input.(client)
      (Gax.getSecret
         {| IGetSecretRequest.name :=
              secret_resource input.(parent) input.(secretId) |})
      response_of /\
    round_trip delete input.(client)
      (Gax.deleteSecret
         {| IDeleteSecretRequest.name :=
              secret_resource input.(parent) input.(secretId) |})
      (fun reply => reply) /\
    (forall content,
       round_trip (addVersion content) input.(client)
         (Gax.addSecretVersion
            {| IAddSecretVersionRequest.parent :=
                 secret_resource input.(parent) input.(secretId);
               IAddSecretVersionRequest.payload :=
                 {| ISecretPayload.data := Just (Buffer_from_utf8 content) |} |})
         response_of) /\
    (forall v : number,
       round_trip (access (Just v)) input.(client)
         (Gax.accessSecretVersion
            {| IAccessSecretVersionRequest.name :=
                 version_resource input.(parent) input.(secretId)
                   (Number_toString v) |})
         (fun reply => accessed_payload (response_of reply))) /\
    round_trip (access Undefined) input.(client)
      (Gax.accessSecretVersion
         {| IAccessSecretVersionRequest.name :=
              version_resource input.(parent) input.(secretId) (lit "latest") |})
      (fun reply => accessed_payload (response_of reply)) /\
    (forall z : Z,
       Z.abs z < 2 ^ 53 ->
       round_trip (access (Just (Number_of_Z z))) input.(client)
         (Gax.accessSecretVersion
            {| IAccessSecretVersionRequest.name :=
                 input.(parent) ++ lit "/secrets/" ++ input.(secretId)
                   ++ lit "/versions/" ++ numeral z |})
         (fun reply => accessed_payload (response_of reply))).
Proof.
  do 4 eexists.
  split; [apply TS_get |]. split; [apply TS_delete |].
  split; [apply TS_addVersion |]. split; [apply TS_access |].
  split; [| split; [| split; [| split; [| split]]]].
  - apply (TS_getSecret_round_trip (secretInput input)).
  - apply (TS_deleteSecret_round_trip (secretInput input)).
  - intros content.
    apply (TS_addNewVersion_round_trip
             {| content_required := secretInput input; secretContent := content |}).
  - intros v. rewrite <- (Number_toString_truthy v (lit "latest")).
    apply (TS_access_round_trip (resolved input (Just v))).
  - apply (TS_access_round_trip (resolved input Undefined)).
  - intros z Hz. unfold numeral.
    rewrite <- (Number_toString_integer z Hz).
    rewrite <- (Number_toString_truthy (Number_of_Z z) (lit "latest")).
    apply (TS_access_round_trip (resolved input (Just (Number_of_Z z)))).
Qed.

(** C6: whatever version is asked for, when the settled response carries
    no payload data [access] is fulfilled with [null] (it does not throw),
    and when it carries data [access] is fulfilled with the data decoded
    as a string: data that are the UTF-8 form of a text decode to the
    UTF-16 form of that text.  The compiled module does the same. *)
Theorem C6_access_gives_null_or_the_decoded_payload (version : nullable number) :
  exists (access access' : nullable number -> Async (nullable jsstring))
         (name : jsstring),
    lookup Key.access (TS.makeSecrets input) = Some access /\
    lookup Key.access (Output.makeSecrets input) = Some access' /\
    (forall text : list Z,
       is_text text = true -> Buffer_toString (UTF8 text) = UTF16 text) /\
    forall St (h : Handler St) (st : St),
      run h (access version) st =
      match
        h _ input.(client)
          (Gax.accessSecretVersion {| IAccessSecretVersionRequest.name := name |})
          st
      with
      | (Fulfilled (response, _, _), st') =>
          (Fulfilled
             match carried_data response with
             | Some bytes => Just (Buffer_toString bytes)
             | None => Null
             end, st')
      | (Rejected e, st') => (Rejected e, st')
      end /\
      run h (access' version) st = run h (access version) st.
Proof.
  eexists. eexists.
  exists (version_resource input.(parent) input.(secretId)
            (resolved input version).(secretVersion)).
  split; [apply TS_access |]. split; [apply Output_access |].
  split; [exact decode_UTF8 |].
  intros St h st. split.
  - rewrite (run_round_trip h _ _ _ _ st
               (TS_access_round_trip (resolved input version))).
    destruct (h _ _ _ st) as [[[[response request] raw] | e] st']; reflexivity.
  - reflexivity.
Qed.

(** C7 (as amended): for [content] without a lone surrogate,
    [addVersion(content)] sends one [addSecretVersion] request, whose
    payload data is exactly the UTF-8 encoding of [content] (the UTF-8
    form of the text of which [content] is the UTF-16 form), and is
    fulfilled with the version descriptor the client reports. *)
Theorem C7_addVersion_sends_the_utf8_encoding (content : jsstring) :
  isWellFormed content = true ->
  exists (addVersion : jsstring -> Async ISecretVersion.t) (text : list Z),
    lookup Key.addVersion (TS.makeSecrets input) = Some addVersion /\
    is_text text = true /\
    UTF16 text = content /\
    round_trip (addVersion content) input.(client)
      (Gax.addSecretVersion
         {| IAddSecretVersionRequest.parent :=
              input.(parent) ++ lit "/secrets/" ++ input.(secretId);
            IAddSecretVersionRequest.payload :=
              {| ISecretPayload.data := Just (UTF8 text) |} |})
      response_of /\
    forall St (h : Handler St) (st : St),
      run h (addVersion content) st =
      match
        h _ input.(client)
          (Gax.addSecretVersion
             {| IAddSecretVersionRequest.parent :=
                  input.(parent) ++ lit "/secrets/" ++ input.(secretId);
                IAddSecretVersionRequest.payload :=
                  {| ISecretPayload.data := Just (UTF8 text) |} |})
          st
      with
      | (Fulfilled (version, _, _), st') => (Fulfilled version, st')
      | (Rejected e, st') => (Rejected e, st')
      end.
Proof.
  intros Hwf.
  destruct (wellformed_is_text content Hwf) as (text & Htext & <-).
  eexists. exists text. split; [apply TS_addVersion |].
  split; [exact Htext |]. split; [reflexivity |].
  pose proof (TS_addNewVersion_round_trip
                {| content_required := secretInput input;
                   secretContent := UTF16 text |})
    as Hrt.
  cbn [secretContent content_required secretInput base parent client secretId]
    in Hrt.
  rewrite (encode_UTF16 text Htext) in Hrt.
  split; [exact Hrt |].
  intros St h st. rewrite (run_round_trip h _ _ _ _ st Hrt).
  destruct (h _ _ _ st) as [[[[version request] raw] | e] st']; reflexivity.
Qed.

(** C8: [create()] sends one [createSecret] request whose replication is
    the automatic policy, with no user-managed (regional) part, and is
    fulfilled with the secret descriptor the client reports; no operation
    of the handle ever sends a [createSecret] request with another
    replication. *)
Theorem C8_create_requests_automatic_replication :
  exists create : Async ISecret.t,
    lookup Key.create (TS.makeSecrets input) = Some create /\
    round_trip create input.(client)
      (Gax.createSecret
         {| ICreateSecretRequest.parent := input.(parent);
            ICreateSecretRequest.secretId := input.(secretId);
            ICreateSecretRequest.secret :=
              {| ISecret.name := Undefined;
                 ISecret.replication :=
                   Just {| IReplication.automatic := Just IAutomatic.Build;
                           IReplication.userManaged := Undefined |} |} |})
      response_of /\
    object_calls automatic_only (TS.makeSecrets input) /\
    forall St (h : Handler St) (st : St),
      run h create st =
      match
        h _ input.(client)
          (Gax.createSecret
             {| ICreateSecretRequest.parent := input.(parent);
                ICreateSecretRequest.secretId := input.(secretId);
                ICreateSecretRequest.secret :=
                  {| ISecret.name := Undefined;
                     ISecret.replication :=
                       Just {| IReplication.automatic := Just IAutomatic.Build;
                               IReplication.userManaged := Undefined |} |} |})
          st
      with
      | (Fulfilled (secret, _, _), st') => (Fulfilled secret, st')
      | (Rejected e, st') => (Rejected e, st')
      end.
Proof.
  eexists. split; [apply TS_create |].
  pose proof (TS_createSecret_round_trip (secretInput input)) as Hrt.
  split; [exact Hrt |]. split.
  - unfold object_calls, TS.makeSecrets.
    repeat apply Forall_cons; try apply Forall_nil;
      cbn [projT1 projT2 property member_calls]; intros.
    + exact (EveryCall_round_trip _ _ _ _ _ Hrt eq_refl).
    + exact (EveryCall_round_trip _ _ _ _ _ (TS_getSecret_round_trip _) I).
    + exact (EveryCall_round_trip _ _ _ _ _ (TS_deleteSecret_round_trip _) I).
    + exact (EveryCall_round_trip _ _ _ _ _ (TS_addNewVersion_round_trip _) I).
    + exact (EveryCall_round_trip _ _ _ _ _ (TS_access_round_trip _) I).
    + exact (EveryCall_round_trip _ _ _ _ _ (TS_accessOnlyLatest_round_trip _) I).
  - intros St h st.
    rewrite (run_round_trip h _ _ _ _ st Hrt).
    destruct (h _ _ _ st) as [[[[secret request] raw] | e] st']; reflexivity.
Qed.

(** C9: for every number [v] given, zero and the negatives included,
    [access(v)] resolves the version to the rendering of [v] by
    [Number.prototype.toString], which is never empty and never
    ["latest"]: for an integer below [2^53] in magnitude it is the decimal
    numeral (["0"] for both zeros), and for [NaN] it is ["NaN"].  The
    default ["latest"] is taken for [undefined] and [null] only.  The
    compiled module resolves the version the same way. *)
Theorem C9_a_given_version_never_falls_back_to_latest (v : number) :
  exists access access' : nullable number -> Async (nullable jsstring),
    lookup Key.access (TS.makeSecrets input) = Some access /\
    lookup Key.access (Output.makeSecrets input) = Some access' /\
    access (Just v) =
      TS.access
        {| version_required := secretInput input;
           secretVersion := Number_toString v |} /\
    access' (Just v) =
      Output.access
        {| version_required := secretInput input;
           secretVersion := Number_toString v |} /\
    Number_toString v <> lit "latest" /\
    Number_toString v <> [] /\
    (forall z : Z,
       Z.abs z < 2 ^ 53 ->
       Number_toString (Number_of_Z z) = numeral z /\
       option_map Z.of_int
         (NilZero.int_of_string (NilZero.string_of_int (Z.to_int z)))
       = Some z) /\
    Number_toString (Number_of_Z 0) = lit "0" /\
    Number_toString (check (FFinite true 0 0)) = lit "0" /\
    Number_toString NaN = lit "NaN" /\
    round_trip (access (Just v)) input.(client)
      (Gax.accessSecretVersion
         {| IAccessSecretVersionRequest.name :=
              input.(parent) ++ lit "/secrets/" ++ input.(secretId)
                ++ lit "/versions/" ++ Number_toString v |})
      (fun reply => accessed_payload (response_of reply)) /\
    access Undefined =
      TS.access
        {| version_required := secretInput input;
           secretVersion := lit "latest" |} /\
    access Null =
      TS.access
        {| version_required := secretInput input;
           secretVersion := lit "latest" |}.
Proof.
  eexists. eexists.
  split; [apply TS_access |]. split; [apply Output_access |].
  cbn beta. unfold resolved. cbn [opt_chain].
  rewrite Number_toString_truthy.
  split; [reflexivity |]. split; [reflexivity |].
  split; [apply Number_toString_not_latest |].
  split; [apply Number_toString_nonempty |].
  split.
  { intros z Hz. split; [apply Number_toString_integer, Hz |].
    apply numeral_reads_back. }
  split; [reflexivity |]. split; [reflexivity |]. split; [reflexivity |].
  split; [| split; reflexivity].
  apply (TS_access_round_trip
           {| version_required := secretInput input;
              secretVersion := Number_toString v |}).
Qed.

(** C10: the handle of [output/index.js] has exactly the properties
    [create], [get], [delete], [addVersion] and [access]; it has no
    [accessOnlyLatest], and the module exports none.  The handle of
    [index.ts] has [accessOnlyLatest] besides, and the module exports it.
    The properties the two handles share hold the same functions, and the
    functions the two modules share are the same. *)
Theorem C10_the_compiled_handle_lacks_accessOnlyLatest :
  keys (Output.makeSecrets input) =
    [Key.create; Key.get; Key.delete; Key.addVersion; Key.access] /\
  lookup Key.accessOnlyLatest (Output.makeSecrets input) = None /\
  existsb (String.eqb "accessOnlyLatest") (export_names Output.exports) = false /\
  keys (TS.makeSecrets input) =
    [Key.create; Key.get; Key.delete; Key.addVersion; Key.access;
     Key.accessOnlyLatest] /\
  lookup Key.accessOnlyLatest (TS.makeSecrets input) =
    Some (TS.accessOnlyLatest (secretInput input)) /\
  existsb (String.eqb "accessOnlyLatest") (export_names TS.exports) = true /\
  Forall
    (fun k => lookup k (Output.makeSecrets input) = lookup k (TS.makeSecrets input))
    [Key.create; Key.get; Key.delete; Key.addVersion; Key.access] /\
  (Output.listSecrets = TS.listSecrets /\ Output.versions = TS.versions /\
   Output.createSecret = TS.createSecret /\ Output.getSecret = TS.getSecret /\
   Output.deleteSecret = TS.deleteSecret /\
   Output.addNewVersion = TS.addNewVersion /\ Output.access = TS.access).
Proof.
  repeat split.
  repeat constructor.
Qed.

End Handle.

(** C7, instance: a string with an accented letter, a euro sign and a
    surrogate pair. *)
Lemma C7_payload_of_a_wellformed_string :
  exists (addVersion : jsstring -> Async ISecretVersion.t) (text : list Z),
    lookup Key.addVersion (TS.makeSecrets sample_input) = Some addVersion /\
    is_text text = true /\
    UTF16 text = [0x68; 0xE9; 0x20AC; 0xD83D; 0xDE00] /\
    round_trip (addVersion [0x68; 0xE9; 0x20AC; 0xD83D; 0xDE00])
      sample_input.(client)
      (Gax.addSecretVersion
         {| IAddSecretVersionRequest.parent :=
              sample_input.(parent) ++ lit "/secrets/"
                ++ sample_input.(secretId);
            IAddSecretVersionRequest.payload :=
              {| ISecretPayload.data := Just (UTF8 text) |} |})
      response_of /\
    forall St (h : Handler St) (st : St),
      run h (addVersion [0x68; 0xE9; 0x20AC; 0xD83D; 0xDE00]) st =
      match
        h _ sample_input.(client)
          (Gax.addSecretVersion
             {| IAddSecretVersionRequest.parent :=
                  sample_input.(parent) ++ lit "/secrets/"
                    ++ sample_input.(secretId);
                IAddSecretVersionRequest.payload :=
                  {| ISecretPayload.data := Just (UTF8 text) |} |})
          st
      with
      | (Fulfilled (version, _, _), st') => (Fulfilled version, st')
      | (Rejected e, st') => (Rejected e, st')
      end.
Proof.
  exact (C7_addVersion_sends_the_utf8_encoding sample_input
           [0x68; 0xE9; 0x20AC; 0xD83D; 0xDE00] eq_refl).
Defined.

(** C7 (as stated) fails: a string that is a lone surrogate is the UTF-16
    form of no text, so the octets sent for it (those of U+FFFD) are the
    UTF-8 encoding of another string. *)
Lemma C7_a_lone_surrogate_has_no_utf8_encoding :
  ~ (forall (input : requiredInput) (content : jsstring),
       sends_utf8_of input content).
Proof.
  intros Hall.
  destruct (Hall sample_input [0xD800])
    as (addVersion & text & Hlookup & Htext & Hcontent & (k & Hprog & _)).
  rewrite TS_addVersion in Hlookup. injection Hlookup as <-.
  apply (f_equal sent_data) in Hprog. cbn [sent_data] in Hprog.
  change (sent_data _) with (Some (Just (Buffer_from_utf8 [0xD800]))) in Hprog.
  injection Hprog as Hpayload.
  pose proof (decode_UTF8 text Htext) as Hdecoded.
  rewrite <- Hpayload, Hcontent in Hdecoded.
  vm_compute in Hdecoded. discriminate Hdecoded.
Qed.

Example lone_surrogate_sent_as_replacement_character :
  sent_data
    (TS.addNewVersion
       {| content_required := sample_input; secretContent := [0xD800] |})
  = Some (Just [0xEF; 0xBF; 0xBD]) /\
  sent_data
    (TS.addNewVersion
       {| content_required := sample_input; secretContent := [0xFFFD] |})
  = Some (Just [0xEF; 0xBF; 0xBD]).
Proof. split; vm_compute; reflexivity. Qed.

(* ================================================================== *)
(** ** Against the service *)

Section ServiceModel.

Import Service.

Lemma eqb_eq (a b : jsstring) : eqb a b = true <-> a = b.
Proof.
  unfold eqb. destruct (list_eq_dec Z.eq_dec a b); split; congruence.
Qed.

Lemma eqb_refl (a : jsstring) : eqb a a = true.
Proof. apply eqb_eq. reflexivity. Qed.

Lemma latest_name_inj (a b : jsstring) : latest_name a = latest_name b -> a = b.
Proof. unfold latest_name. apply app_inv_tail. Qed.

Lemma eqb_latest_name (a b : jsstring) :
  eqb (latest_name a) (latest_name b) = eqb a b.
Proof.
  destruct (eqb a b) eqn:Hab.
  - apply eqb_eq in Hab. subst. apply eqb_refl.
  - destruct (eqb (latest_name a) (latest_name b)) eqn:Hl; [| reflexivity].
    apply eqb_eq, latest_name_inj in Hl. subst.
    rewrite eqb_refl in Hab. discriminate.
Qed.

(** After a secret is amended, its "latest" name finds the amended
    secret. *)
Lemma find_latest_amend (name : jsstring) (f : entry -> entry) (st : state)
  (e : entry) :
  (forall x, resource (f x) = resource x) ->
  find_secret name st = Some e ->
  find (fun x => eqb (latest_name (resource x)) (latest_name name))
    (amend name f st) = Some (f e).
Proof.
  intros Hf. unfold find_secret.
  induction st as [| e0 st IH]; cbn [find amend]; [discriminate |].
  destruct (eqb (resource e0) name) eqn:He0.
  - intros [= ->]. cbn [find]. rewrite eqb_latest_name, Hf, He0. reflexivity.
  - intros Hfind. cbn [find]. rewrite eqb_latest_name, He0. apply IH, Hfind.
Qed.

Lemma numbered_snoc (secret : jsstring) (ps : list (option Buffer)) :
  forall (n : Z) (p : option Buffer),
    numbered secret n (ps ++ [p]) =
    numbered secret n ps
      ++ [(version_name secret (n + Z.of_nat (List.length ps)), p)].
Proof.
  induction ps as [| q ps IH]; intros n p; cbn [numbered app List.length].
  - rewrite Z.add_0_r. reflexivity.
  - rewrite IH.
    replace (n + Z.of_nat (S (List.length ps)))
      with (n + 1 + Z.of_nat (List.length ps)) by lia.
    reflexivity.
Qed.

(** The reference model keeps what it is given. *)
Lemma Service_keeps_payloads : keeps_payloads handler.
Proof.
  intros client client' secret bytes st version st'.
  cbn [handler IAddSecretVersionRequest.parent IAddSecretVersionRequest.payload
         ISecretPayload.data].
  destruct (find_secret secret st) as [e |] eqn:Hfind; [| discriminate].
  intros [= _ <-].
  cbn [handler IAccessSecretVersionRequest.name]. unfold resolve.
  change (secret ++ lit "/versions/latest") with (latest_name secret).
  rewrite (find_latest_amend secret
             (fun x =>
                {| resource := resource x;
                   descriptor := descriptor x;
                   payloads := payloads x ++ [Some bytes] |})
             st e (fun x => eq_refl) Hfind).
  unfold versions_of. cbn [resource payloads].
  rewrite numbered_snoc, rev_unit.
  do 2 eexists. split; reflexivity.
Qed.

End ServiceModel.

(** Content without a lone surrogate comes back as it went in, from any
    service that keeps its payloads. *)
Lemma restores_well_formed {St} (h : Handler St) (content : jsstring) :
  keeps_payloads h -> isWellFormed content = true -> restores h content.
Proof.
  intros Hlaw Hwf input addVersion access st version st' Hadd Hacc Hrun.
  rewrite TS_addVersion in Hadd. injection Hadd as <-.
  rewrite TS_access in Hacc. injection Hacc as <-.
  rewrite (run_round_trip h _ _ _ _ st (TS_addNewVersion_round_trip _)) in Hrun.
  cbn [secretContent content_required secretInput base parent client secretId]
    in Hrun.
  destruct (h _ _ _ st) as [[added | e] st1] eqn:Hcall; [| discriminate].
  injection Hrun as _ <-.
  destruct (Hlaw _ input.(client) _ _ _ _ _ Hcall)
    as (reply & st'' & Hread & Hdata).
  exists st''.
  rewrite (run_round_trip h _ _ _ _ st1 (TS_access_round_trip _)).
  cbn [resolved secretVersion version_required secretInput base parent client
         secretId opt_chain logical_or].
  rewrite version_resource_latest, Hread.
  unfold accessed_payload. rewrite Hdata, utf8_roundtrip by assumption.
  reflexivity.
Qed.

(** C5 (as amended): against a service in which the latest version of a
    secret carries the bytes last stored for it, [addVersion("hello")]
    followed by [access()] is fulfilled with ["hello"]; and in general
    [access()] is fulfilled with the string last passed to [addVersion]
    when that string has no lone surrogate. *)
Theorem C5_addVersion_then_access_restores_content {St} (h : Handler St) :
  keeps_payloads h ->
  restores h (lit "hello") /\
  forall content, isWellFormed content = true -> restores h content.
Proof.
  intros Hlaw. split.
  - apply restores_well_formed; [exact Hlaw | reflexivity].
  - intros content Hwf. apply restores_well_formed; assumption.
Qed.

(** C5, instance: on the reference model holding the sample secret,
    ["hello"] comes back, and so does a string with an accented letter and
    a surrogate pair. *)
Lemma C5_content_restored_by_the_reference_model :
  (exists st'',
     run Service.handler (TS.access (resolved sample_input Undefined))
       (snd (run Service.handler
               (TS.addNewVersion
                  {| content_required := secretInput sample_input;
                     secretContent := lit "hello" |})
               sample_state))
     = (Fulfilled (Just (lit "hello")), st'')) /\
  (exists st'',
     run Service.handler (TS.access (resolved sample_input Undefined))
       (snd (run Service.handler
               (TS.addNewVersion
                  {| content_required := secretInput sample_input;
                     secretContent := [0x68; 0xE9; 0xD83D; 0xDE00] |})
               sample_state))
     = (Fulfilled (Just [0x68; 0xE9; 0xD83D; 0xDE00]), st'')).
Proof.
  destruct (C5_addVersion_then_access_restores_content
              Service.handler Service_keeps_payloads) as [Hhello Hany].
  split.
  - exact (Hhello sample_input _ _ sample_state _ _ eq_refl eq_refl eq_refl).
  - exact (Hany [0x68; 0xE9; 0xD83D; 0xDE00] eq_refl
             sample_input _ _ sample_state _ _ eq_refl eq_refl eq_refl).
Defined.

(** C5 (as stated) fails: a string that is a lone surrogate is stored as
    the encoding of U+FFFD, and U+FFFD is what comes back. *)
Lemma C5_a_lone_surrogate_is_not_restored :
  ~ (forall St (h : Handler St),
       keeps_payloads h -> forall content, restores h content).
Proof.
  intros Hall.
  pose proof (Hall _ Service.handler Service_keeps_payloads [0xD800]) as H.
  destruct (H sample_input _ _ sample_state _ _ eq_refl eq_refl eq_refl)
    as [st'' Hrun].
  vm_compute in Hrun. discriminate Hrun.
Qed.

(** ** The testable properties of the spec, run on the reference model *)

Example lone_surrogate_read_back :
  Buffer_from_utf8 [0xD800] = [0xEF; 0xBF; 0xBD] /\
  fst (run Service.handler (TS.access (resolved sample_input Undefined))
         (snd (run Service.handler
                 (TS.addNewVersion
                    {| content_required := secretInput sample_input;
                       secretContent := [0xD800] |})
                 sample_state)))
  = Fulfilled (Just [0xFFFD]).
Proof. split; vm_compute; reflexivity. Qed.

Example explicit_versions :
  fst (run Service.handler scenario_versions []) =
  Fulfilled
    [inl (Just (lit "v1")); inl (Just (lit "v2"));
     inl (Just (lit "v2")); inl (Just (lit "v2"))].
Proof. vm_compute. reflexivity. Qed.

Example create_twice_already_exists :
  fst (run Service.handler scenario_create_twice []) = Rejected Gax.AlreadyExists.
Proof. vm_compute. reflexivity. Qed.

Example get_after_delete_not_found :
  fst (run Service.handler scenario_get_after_delete []) = Rejected Gax.NotFound.
Proof. vm_compute. reflexivity. Qed.

Example destroyed_version_reads_null :
  fst (run Service.handler
         (TS.access (resolved sample_input (Just (Number_of_Z 1))))
         [ {| Service.resource := lit "projects/p/secrets/s";
              Service.descriptor :=
                {| ISecret.name := Just (lit "projects/p/secrets/s");
                   ISecret.replication := Just automatic_replication |};
              Service.payloads := [None] |} ])
  = Fulfilled Null.
Proof. vm_compute. reflexivity. Qed.

Example delete_on_the_reference_model :
  fst (run Service.handler (TS.deleteSecret sample_input) sample_state)
  = Fulfilled (IEmpty.Build, Undefined, Undefined) /\
  fst (run Service.handler (TS.getSecret sample_input) sample_state)
  = Fulfilled
      {| ISecret.name := Just (lit "projects/p/secrets/s");
         ISecret.replication := Just automatic_replication |}.
Proof. split; vm_compute; reflexivity. Qed.

(* ================================================================== *)
(** ** Further properties of the code *)

(** *** What a single round trip entails *)

Lemma calls_made_round_trip {A R} (p : Async A) client (c : Gax.call R)
  (result : R -> A) :
  round_trip p client c result -> one_call A p.
Proof.
  intros (k & -> & Hk) St h st. cbn [calls_made].
  destruct (h R client c st) as [[r | e] st']; [| reflexivity].
  rewrite Hk. reflexivity.
Qed.

Lemma settles_round_trip {A R} (p : Async A) client (c : Gax.call R)
  (result : R -> A) :
  round_trip p client c result -> settles_as_its_call A p.
Proof.
  intros Hrt. exists R, client, c. intros St h st.
  rewrite (run_round_trip h p client c result st Hrt).
  destruct (h R client c st) as [[r | e] st']; [| reflexivity].
  eexists. reflexivity.
Qed.

Lemma CallsOn_round_trip {A R} (p : Async A) client (c : Gax.call R)
  (result : R -> A) :
  round_trip p client c result -> CallsOn client p.
Proof.
  intros (k & -> & Hk). constructor. intros r. rewrite Hk. constructor.
Qed.

(** Whatever holds of every round trip on the client of a handle holds of
    every operation of the handle. *)
Lemma TS_operations_are_round_trips (Q : forall A, Async A -> Prop)
  (input : requiredInput) :
  (forall A R (p : Async A) (c : Gax.call R) result,
     round_trip p input.(client) c result -> Q A p) ->
  object_forall Q (TS.makeSecrets input).
Proof.
  intros HQ. unfold object_forall, TS.makeSecrets.
  repeat apply Forall_cons; try apply Forall_nil;
    cbn [projT1 projT2 property member_forall]; intros.
  - exact (HQ _ _ _ _ _ (TS_createSecret_round_trip (secretInput input))).
  - exact (HQ _ _ _ _ _ (TS_getSecret_round_trip (secretInput input))).
  - exact (HQ _ _ _ _ _ (TS_deleteSecret_round_trip (secretInput input))).
  - eapply HQ. apply (TS_addNewVersion_round_trip (Build_contentInput (secretInput input) _)).
  - eapply HQ. apply (TS_access_round_trip (resolved input _)).
  - exact (HQ _ _ _ _ _ (TS_accessOnlyLatest_round_trip (secretInput input))).
Qed.

Lemma Output_operations_are_round_trips (Q : forall A, Async A -> Prop)
  (input : requiredInput) :
  (forall A R (p : Async A) (c : Gax.call R) result,
     round_trip p input.(client) c result -> Q A p) ->
  object_forall Q (Output.makeSecrets input).
Proof.
  intros HQ. unfold object_forall, Output.makeSecrets.
  repeat apply Forall_cons; try apply Forall_nil;
    cbn [projT1 projT2 property member_forall]; intros.
  - exact (HQ _ _ _ _ _ (TS_createSecret_round_trip (secretInput input))).
  - exact (HQ _ _ _ _ _ (TS_getSecret_round_trip (secretInput input))).
  - exact (HQ _ _ _ _ _ (TS_deleteSecret_round_trip (secretInput input))).
  - eapply HQ. apply (TS_addNewVersion_round_trip (Build_contentInput (secretInput input) _)).
  - eapply HQ. apply (Output_access_round_trip (resolved input _)).
Qed.

Section Project.

Variable projectClient : Gax.SecretManagerServiceClient.
Variable projectParent : jsstring.

(** X1: [list()] of a project handle makes one [listSecrets] call, for the
    project's [parent] and on the project's client; it is fulfilled with
    the sequence the client reports, as reported, and rejected as the call
    is rejected.  The compiled module does the same. *)
Theorem X1_list_is_one_listSecrets_call :
  forall St (h : Handler St) (st : St),
    run h (baseOutput.list (TS.makeSecretsWithProject projectClient projectParent)) st =
      match
        h _ projectClient
          (Gax.listSecrets {| IListSecretsRequest.parent := projectParent |}) st
      with
      | (Fulfilled (secrets, _, _), st') => (Fulfilled secrets, st')
      | (Rejected e, st') => (Rejected e, st')
      end /\
    calls_made h (baseOutput.list (TS.makeSecretsWithProject projectClient projectParent)) st
      = 1%nat /\
    run h (baseOutput.list (Output.makeSecretsWithProject projectClient projectParent)) st =
      run h (baseOutput.list (TS.makeSecretsWithProject projectClient projectParent)) st.
Proof.
  intros St h st.
  pose proof (TS_listSecrets_round_trip {| parent := projectParent; client := projectClient |})
    as Hrt.
  split; [| split; [| reflexivity]].
  - cbn [baseOutput.list TS.makeSecretsWithProject].
    rewrite (run_round_trip h _ _ _ _ st Hrt).
    destruct (h _ _ _ st) as [[[[secrets request] raw] | e] st']; reflexivity.
  - exact (calls_made_round_trip _ _ _ _ Hrt St h st).
Qed.

Lemma app_nonempty_neq (a b : jsstring) : b <> [] -> a <> a ++ b.
Proof.
  intros Hb Heq. apply Hb.
  apply (app_inv_head a). rewrite app_nil_r. symmetry. exact Heq.
Qed.

(** X2: [versions()] of a project handle makes one [listSecretVersions]
    call whose parent is the project's [parent] itself: it is the parent
    [list()] sends, and it is the resource name of no secret of the
    project.  The call's first element is returned as reported. *)
Theorem X2_versions_lists_under_the_project_parent :
  forall St (h : Handler St) (st : St),
    run h (baseOutput.versions (TS.makeSecretsWithProject projectClient projectParent)) st =
      match
        h _ projectClient
          (Gax.listSecretVersions {| IListSecretVersionsRequest.parent := projectParent |})
          st
      with
      | (Fulfilled (versions, _, _), st') => (Fulfilled versions, st')
      | (Rejected e, st') => (Rejected e, st')
      end /\
    calls_made h (baseOutput.versions (TS.makeSecretsWithProject projectClient projectParent)) st
      = 1%nat /\
    first_target (baseOutput.versions (TS.makeSecretsWithProject projectClient projectParent))
      = first_target (baseOutput.list (TS.makeSecretsWithProject projectClient projectParent)) /\
    (forall secretId,
       first_target (baseOutput.versions (TS.makeSecretsWithProject projectClient projectParent))
       <> Some (secret_resource projectParent secretId)) /\
    run h (baseOutput.versions (Output.makeSecretsWithProject projectClient projectParent)) st =
      run h (baseOutput.versions (TS.makeSecretsWithProject projectClient projectParent)) st.
Proof.
  intros St h st.
  pose proof (TS_versions_round_trip {| parent := projectParent; client := projectClient |})
    as Hrt.
  split; [| split; [| split; [reflexivity | split; [| reflexivity]]]].
  - cbn [baseOutput.versions TS.makeSecretsWithProject].
    rewrite (run_round_trip h _ _ _ _ st Hrt).
    destruct (h _ _ _ st) as [[[[versions request] raw] | e] st']; reflexivity.
  - exact (calls_made_round_trip _ _ _ _ Hrt St h st).
  - intros secretId. cbn. intros [= Heq]. revert Heq.
    apply app_nonempty_neq. discriminate.
Qed.

(** X3: a project handle holds one client: [client()] returns it, and
    every call of [list], of [versions] and of every operation of every
    secret handle it builds is made on it.  Each secret handle is the one
    [makeSecrets] builds for the project's parent; so it is in the compiled
    module. *)
Theorem X3_a_project_handle_uses_one_client (secretId : jsstring) :
  baseOutput.client (TS.makeSecretsWithProject projectClient projectParent) = projectClient /\
  CallsOn projectClient (baseOutput.list (TS.makeSecretsWithProject projectClient projectParent)) /\
  CallsOn projectClient (baseOutput.versions (TS.makeSecretsWithProject projectClient projectParent)) /\
  baseOutput.secret (TS.makeSecretsWithProject projectClient projectParent) secretId =
    TS.makeSecrets
      {| base := {| parent := projectParent; client := projectClient |};
         secretId := secretId |} /\
  object_forall (@CallsOn projectClient)
    (baseOutput.secret (TS.makeSecretsWithProject projectClient projectParent) secretId) /\
  baseOutput.client (Output.makeSecretsWithProject projectClient projectParent) = projectClient /\
  object_forall (@CallsOn projectClient)
    (baseOutput.secret (Output.makeSecretsWithProject projectClient projectParent) secretId).
Proof.
  split; [reflexivity |].
  split; [exact (CallsOn_round_trip _ _ _ _
                   (TS_listSecrets_round_trip
                      {| parent := projectParent; client := projectClient |})) |].
  split; [exact (CallsOn_round_trip _ _ _ _
                   (TS_versions_round_trip
                      {| parent := projectParent; client := projectClient |})) |].
  split; [reflexivity |].
  split; [| split; [reflexivity |]].
  - apply (TS_operations_are_round_trips (@CallsOn projectClient)
             {| base := {| parent := projectParent; client := projectClient |};
                secretId := secretId |}).
    intros A R p c result. apply CallsOn_round_trip.
  - apply (Output_operations_are_round_trips (@CallsOn projectClient)
             {| base := {| parent := projectParent; client := projectClient |};
                secretId := secretId |}).
    intros A R p c result. apply CallsOn_round_trip.
Qed.

End Project.

Section Operations.

Variable input : requiredInput.

(** X4: every operation of a secret handle, whatever its argument, makes
    exactly one call on the client, against every implementation of the
    client and in every state: nothing is retried after a rejection and
    nothing is asked twice.  So it is in the compiled module. *)
Theorem X4_every_operation_makes_exactly_one_call :
  object_forall one_call (TS.makeSecrets input) /\
  object_forall one_call (Output.makeSecrets input).
Proof.
  split.
  - apply TS_operations_are_round_trips.
    intros A R p c result. apply calls_made_round_trip.
  - apply Output_operations_are_round_trips.
    intros A R p c result. apply calls_made_round_trip.
Qed.

(** X5: every operation of a secret handle settles as its one call
    settles: when the client rejects the call, the operation is rejected
    with the same error; when the client fulfils it, the operation is
    fulfilled; the state of the service is what the call left.  So it is
    in the compiled module. *)
Theorem X5_every_operation_settles_as_its_call :
  object_forall settles_as_its_call (TS.makeSecrets input) /\
  object_forall settles_as_its_call (Output.makeSecrets input).
Proof.
  split.
  - apply TS_operations_are_round_trips.
    intros A R p c result. apply settles_round_trip.
  - apply Output_operations_are_round_trips.
    intros A R p c result. apply settles_round_trip.
Qed.

End Operations.

(** *** Resource names *)

Lemma lit_inj (s t : string) : lit s = lit t -> s = t.
Proof.
  unfold lit. intros H.
  rewrite <- (string_of_list_ascii_of_string s),
          <- (string_of_list_ascii_of_string t).
  f_equal. revert H.
  generalize (list_ascii_of_string s) (list_ascii_of_string t).
  induction l as [| a l IH]; intros [| b l']; cbn; try discriminate.
  - reflexivity.
  - intros [= Hab Hl]. f_equal; [| apply IH, Hl].
    apply N2Z.inj in Hab.
    rewrite <- (ascii_N_embedding a), <- (ascii_N_embedding b), Hab.
    reflexivity.
Qed.

Lemma numeral_inj (z w : Z) : numeral z = numeral w -> z = w.
Proof.
  unfold numeral. intros H. apply lit_inj in H.
  pose proof (numeral_reads_back z) as Hz.
  rewrite H, numeral_reads_back in Hz. injection Hz as ->. reflexivity.
Qed.

Section Names.

Variable input : requiredInput.

(** X6: the name [access(v)] asks for ends with the rendering of [v].
    Distinct integers below [2^53] in magnitude are read from distinct
    resources, and no number is read from the resource of the latest
    version: the name [access(v)] asks for is never the name [access()]
    asks for. *)
Theorem X6_version_numbers_name_distinct_resources :
  exists access : nullable number -> Async (nullable jsstring),
    lookup Key.access (TS.makeSecrets input) = Some access /\
    (forall v : number,
       first_target (access (Just v)) =
         Some (version_resource input.(parent) input.(secretId)
                 (Number_toString v))) /\
    (forall z : Z,
       Z.abs z < 2 ^ 53 ->
       first_target (access (Just (Number_of_Z z))) =
         Some (version_resource input.(parent) input.(secretId) (numeral z))) /\
    (forall z w : Z,
       Z.abs z < 2 ^ 53 -> Z.abs w < 2 ^ 53 ->
       first_target (access (Just (Number_of_Z z))) =
         first_target (access (Just (Number_of_Z w))) ->
       z = w) /\
    (forall v : number,
       first_target (access (Just v)) <> first_target (access Undefined)).
Proof.
  eexists. split; [apply TS_access |].
  assert (forall v : number,
            first_target (TS.access (resolved input (Just v))) =
            Some (version_resource input.(parent) input.(secretId)
                    (Number_toString v))) as Hname.
  { intros v. cbn [first_target TS.access bind await target
                     IAccessSecretVersionRequest.name].
    unfold resolved. cbn [opt_chain secretVersion].
    rewrite Number_toString_truthy. reflexivity. }
  split; [exact Hname |]. split; [| split].
  - intros z Hz. rewrite Hname, (Number_toString_integer z Hz). reflexivity.
  - intros z w Hz Hw.
    rewrite !Hname, (Number_toString_integer z Hz),
      (Number_toString_integer w Hw).
    intros [= H]. unfold version_resource in H.
    do 4 apply app_inv_head in H. apply numeral_inj, H.
  - intros v. rewrite Hname.
    change (first_target (TS.access (resolved input Undefined)))
      with (Some (version_resource input.(parent) input.(secretId)
                    (lit "latest"))).
    intros [= H]. unfold version_resource in H.
    do 4 apply app_inv_head in H.
    exact (Number_toString_not_latest v H).
Qed.

End Names.

(** X7: the name of a secret is the bare concatenation of the parent,
    ["/secrets/"] and the identifier.  Under one parent distinct
    identifiers name distinct secrets, and under one identifier distinct
    parents do; but nothing is escaped or checked, so a parent or an
    identifier that contains ["/secrets/"] can name the secret of another
    handle. *)
Theorem X7_secret_names_are_bare_concatenations (i j : requiredInput) :
  exists get_i get_j : Async ISecret.t,
    lookup Key.get (TS.makeSecrets i) = Some get_i /\
    lookup Key.get (TS.makeSecrets j) = Some get_j /\
    first_target get_i = Some (i.(parent) ++ lit "/secrets/" ++ i.(secretId)) /\
    (i.(parent) = j.(parent) ->
     first_target get_i = first_target get_j -> i.(secretId) = j.(secretId)) /\
    (i.(secretId) = j.(secretId) ->
     first_target get_i = first_target get_j -> i.(parent) = j.(parent)) /\
    (forall a b : jsstring,
       i.(parent) = j.(parent) ++ lit "/secrets/" ++ a ->
       i.(secretId) = b ->
       j.(secretId) = a ++ lit "/secrets/" ++ b ->
       first_target get_i = first_target get_j).
Proof.
  eexists. eexists. split; [apply TS_get |]. split; [apply TS_get |].
  split; [reflexivity |].
  change (first_target (TS.getSecret (secretInput i)))
    with (Some (i.(parent) ++ lit "/secrets/" ++ i.(secretId))).
  change (first_target (TS.getSecret (secretInput j)))
    with (Some (j.(parent) ++ lit "/secrets/" ++ j.(secretId))).
  split; [| split].
  - intros Hp [= H]. rewrite Hp in H. apply app_inv_head in H.
    exact (app_inv_head (lit "/secrets/") _ _ H).
  - intros Hs [= H]. rewrite Hs in H. apply app_inv_tail in H. exact H.
  - intros a b -> -> ->. f_equal. rewrite <- !app_assoc. reflexivity.
Qed.

(** *** Composition *)

Lemma find_app_none {A} (f : A -> bool) (l l' : list A) :
  find f l = None -> find f (l ++ l') = find f l'.
Proof.
  induction l as [| a l IH]; cbn [find app]; [reflexivity |].
  destruct (f a); [discriminate | exact IH].
Qed.

Lemma Service_registers_secrets : registers_secrets Service.handler.
Proof.
  intros client client' request st created st'.
  cbn [Service.handler].
  destruct (Service.find_secret _ st) eqn:Hfind; [discriminate |].
  intros [= _ <-].
  cbn [Service.handler IGetSecretRequest.name]. unfold Service.find_secret in *.
  rewrite (find_app_none _ _ _ Hfind). cbn [find Service.resource].
  rewrite eqb_refl. do 2 eexists. split; reflexivity.
Qed.

(** X8: against a service that names a created secret
    [{parent}/secrets/{secretId}], a [get()] that follows a fulfilled
    [create()] of the same handle is fulfilled, with a descriptor of that
    name: the name [get] builds is the one under which [create], which
    sends parent and identifier apart, has the secret made. *)
Theorem X8_get_finds_what_create_made {St} (h : Handler St) :
  registers_secrets h ->
  forall (input : requiredInput) (create get : Async ISecret.t)
         (st st' : St) (made : ISecret.t),
    lookup Key.create (TS.makeSecrets input) = Some create ->
    lookup Key.get (TS.makeSecrets input) = Some get ->
    run h create st = (Fulfilled made, st') ->
    exists found st'',
      run h get st' = (Fulfilled found, st'') /\
      found.(ISecret.name)
      = Just (input.(parent) ++ lit "/secrets/" ++ input.(secretId)).
Proof.
  intros Hlaw input create get st st' made Hcreate Hget Hrun.
  rewrite TS_create in Hcreate. injection Hcreate as <-.
  rewrite TS_get in Hget. injection Hget as <-.
  rewrite (run_round_trip h _ _ _ _ st (TS_createSecret_round_trip _)) in Hrun.
  destruct (h _ _ _ st) as [[created | e] st1] eqn:Hcall; [| discriminate].
  injection Hrun as _ <-.
  destruct (Hlaw _ input.(client) _ _ _ _ Hcall)
    as (reply & st'' & Hfound & Hname).
  exists (response_of reply), st''. split; [| exact Hname].
  rewrite (run_round_trip h _ _ _ _ st1 (TS_getSecret_round_trip _)).
  cbn [secretInput base parent client secretId ICreateSecretRequest.parent
         ICreateSecretRequest.secretId] in *.
  unfold secret_resource. rewrite Hfound. reflexivity.
Qed.

Lemma X8_get_after_create_on_the_reference_model :
  exists found st'',
    run Service.handler (TS.getSecret (secretInput sample_input))
      (snd (run Service.handler (TS.createSecret (secretInput sample_input)) []))
    = (Fulfilled found, st'') /\
    found.(ISecret.name) = Just (lit "projects/p/secrets/s").
Proof.
  exact (X8_get_finds_what_create_made Service.handler Service_registers_secrets
           sample_input _ _ [] _ _ eq_refl eq_refl eq_refl).
Defined.

(** *** The size of a payload *)

Lemma octets_length (cp : Z) :
  (1 <= List.length (utf8_octets cp) <= 4)%nat /\
  (cp < 0x10000 -> (List.length (utf8_octets cp) <= 3)%nat) /\
  (0x10000 <= cp -> List.length (utf8_octets cp) = 4%nat).
Proof.
  unfold utf8_octets.
  destruct (Z.ltb_spec cp 0x80); [cbn; lia |].
  destruct (Z.ltb_spec cp 0x800); [cbn; lia |].
  destruct (Z.ltb_spec cp 0x10000); cbn; lia.
Qed.

Lemma octets_are_octets (cp : Z) :
  0 <= cp < 0x110000 -> Forall is_octet (utf8_octets cp).
Proof.
  intros Hcp. unfold is_octet.
  assert (cp < 0x80 \/ 0x80 <= cp < 0x800 \/ 0x800 <= cp < 0x10000
          \/ 0x10000 <= cp) as [H1 | [H2 | [H3 | H4]]] by lia.
  - rewrite octets_1 by lia. repeat constructor; lia.
  - rewrite octets_2 by lia. repeat constructor; arith.
  - rewrite octets_3 by lia. repeat constructor; arith.
  - rewrite octets_4 by lia. repeat constructor; arith.
Qed.

Lemma replacement_octets :
  utf8_octets replacement_character = [0xEF; 0xBF; 0xBD].
Proof. reflexivity. Qed.

Lemma payload_bounded (n : nat) : forall s : jsstring,
  (List.length s <= n)%nat -> Forall is_code_unit s ->
  (List.length s <= List.length (Buffer_from_utf8 s) <= 3 * List.length s)%nat /\
  Forall is_octet (Buffer_from_utf8 s).
Proof.
  induction n as [| n IH]; intros [| c rest] Hlen Hunits;
    try (cbn; split; [lia | constructor]).
  - cbn in Hlen. lia.
  - cbn [List.length] in Hlen.
    pose proof (Forall_inv Hunits) as Hc. unfold is_code_unit in Hc.
    pose proof (Forall_inv_tail Hunits) as Hrest.
    destruct (IH rest ltac:(lia) Hrest) as [Hsize Hoct].
    cbn [Buffer_from_utf8].
    destruct (is_high_surrogate c) eqn:Hhi.
    + destruct rest as [| d rest'].
      * rewrite replacement_octets. cbn [List.length]. split; [lia |].
        repeat constructor; unfold is_octet; lia.
      * destruct (is_low_surrogate d) eqn:Hlo.
        -- pose proof (surrogate_pair_scalar c d Hhi Hlo) as Hcp.
           destruct (octets_length (surrogate_pair c d)) as (_ & _ & H4).
           cbn [List.length] in Hlen, Hsize |- *.
           destruct (IH rest' ltac:(lia) (Forall_inv_tail Hrest)) as [Hsize' Hoct'].
           rewrite length_app, H4 by lia. split; [lia |].
           apply Forall_app. split; [| exact Hoct'].
           apply octets_are_octets. lia.
        -- rewrite replacement_octets, length_app.
           cbn [List.length] in Hsize |- *. split; [lia |].
           apply Forall_app. split; [| exact Hoct].
           repeat constructor; unfold is_octet; lia.
    + destruct (is_low_surrogate c).
      * rewrite replacement_octets, length_app.
        cbn [List.length] in Hsize |- *. split; [lia |].
        apply Forall_app. split; [| exact Hoct].
        repeat constructor; unfold is_octet; lia.
      * destruct (octets_length c) as (H1 & H3 & _).
        rewrite length_app. cbn [List.length]. split; [lia |].
        apply Forall_app. split; [| exact Hoct].
        apply octets_are_octets. lia.
Qed.

(** X9: the payload [addVersion(content)] sends is a sequence of octets,
    at least as many as [content] has code units and at most three times
    as many.  Nothing bounds the length of [content] itself. *)
Theorem X9_the_payload_has_between_one_and_three_octets_a_unit
  (input : requiredInput) (content : jsstring) :
  Forall is_code_unit content ->
  exists (addVersion : jsstring -> Async ISecretVersion.t) (payload : Buffer),
    lookup Key.addVersion (TS.makeSecrets input) = Some addVersion /\
    round_trip (addVersion content) input.(client)
      (Gax.addSecretVersion
         {| IAddSecretVersionRequest.parent :=
              input.(parent) ++ lit "/secrets/" ++ input.(secretId);
            IAddSecretVersionRequest.payload :=
              {| ISecretPayload.data := Just payload |} |})
      response_of /\
    (List.length content <= List.length payload <= 3 * List.length content)%nat /\
    Forall is_octet payload.
Proof.
  intros Hunits. eexists. exists (Buffer_from_utf8 content).
  split; [apply TS_addVersion |]. split.
  - apply (TS_addNewVersion_round_trip
             {| content_required := secretInput input; secretContent := content |}).
  - apply (payload_bounded (List.length content)); [reflexivity | exact Hunits].
Qed.

Lemma X9_payload_of_a_mixed_string :
  exists (addVersion : jsstring -> Async ISecretVersion.t) (payload : Buffer),
    lookup Key.addVersion (TS.makeSecrets sample_input) = Some addVersion /\
    round_trip (addVersion [0x68; 0xE9; 0x20AC; 0xD83D; 0xDE00; 0xDC00])
      sample_input.(client)
      (Gax.addSecretVersion
         {| IAddSecretVersionRequest.parent :=
              sample_input.(parent) ++ lit "/secrets/" ++ sample_input.(secretId);
            IAddSecretVersionRequest.payload :=
              {| ISecretPayload.data := Just payload |} |})
      response_of /\
    (6 <= List.length payload <= 18)%nat /\
    Forall is_octet payload.
Proof.
  apply (X9_the_payload_has_between_one_and_three_octets_a_unit sample_input
           [0x68; 0xE9; 0x20AC; 0xD83D; 0xDE00; 0xDC00]).
  repeat constructor; unfold is_code_unit; lia.
Defined.
